(** * Dependency mapping engine: a shallow embedding of
    skills/01_code_understanding/map_dependencies/main.py

    The development follows the source file top to bottom: text helpers,
    language detection, the import extractors, the dependency classifier,
    the cycle search and the report assembly of [map_dependencies].

    Conventions.
    - Python [str] values are [string]s, one [ascii] per code point; text is
      taken in the range of code points below 256.
    - A [dict] is an association list in insertion order (the order Python
      iterates it in); a [set] is a duplicate-free list in insertion order
      together with an iteration order [set_iter] about which nothing is
      assumed except that it enumerates the elements of the set.
    - What the source obtains from libraries (pathlib, open, ast, re) is the
      field of a [Host] record; every theorem holds for every host.
    - A call that can raise returns a [result].
    - The exceptions that no statement of the source handles ([OSError] of
      [Path.exists], what escapes from [ast.parse], [RecursionError] of the
      nested [dfs]) are the fields of an [Interpreter] record; module [Run]
      holds the functions that meet them, and a run that returns gives the
      report of the functions as written. *)

From Stdlib Require Import String Ascii Bool Arith ZArith Lia Permutation List.
From Stdlib Require Import DecimalString.
Import ListNotations.
Local Open Scope string_scope.
Local Open Scope list_scope.

Set Implicit Arguments.

(* ====================================================================== *)
(** ** Text helpers (methods of Python's [str]) *)
(* ====================================================================== *)

Module Str.

(** [s.startswith(p)] *)
Definition startswith (s p : string) : bool := String.prefix p s.

(** [c in s] for a one-character [c] *)
Fixpoint contains (c : ascii) (s : string) : bool :=
  match s with
  | EmptyString => false
  | String d rest => Ascii.eqb d c || contains c rest
  end.

(** [sub in s] *)
Fixpoint contains_str (sub s : string) : bool :=
  String.prefix sub s ||
  match s with
  | EmptyString => false
  | String _ rest => contains_str sub rest
  end.

(** [s.split(c)] for a one-character separator: never the empty list. *)
Fixpoint split (c : ascii) (s : string) : list string :=
  match s with
  | EmptyString => [EmptyString]
  | String d rest =>
      if Ascii.eqb d c then EmptyString :: split c rest
      else match split c rest with
           | [] => [String d EmptyString]
           | h :: t => String d h :: t
           end
  end.

(** [s.split(c)[0]] *)
Definition first_field (c : ascii) (s : string) : string :=
  hd EmptyString (split c s).

(** [s.split(c)[-1]] *)
Definition last_field (c : ascii) (s : string) : string :=
  last (split c s) EmptyString.

(** [s.split(sep)[0]] for a separator of several characters. *)
Fixpoint before_first (sep s : string) : string :=
  match s with
  | EmptyString => EmptyString
  | String d rest =>
      if String.prefix sep s then EmptyString
      else String d (before_first sep rest)
  end.

(** [str.isspace] on one character, for code points below 256. *)
Definition is_space (c : ascii) : bool :=
  let n := nat_of_ascii c in
  (((9 <=? n) && (n <=? 13)) || ((28 <=? n) && (n <=? 32))
   || (n =? 133) || (n =? 160))%nat.

Fixpoint lstrip (s : string) : string :=
  match s with
  | EmptyString => EmptyString
  | String d rest => if is_space d then lstrip rest else s
  end.

Fixpoint rstrip (s : string) : string :=
  match s with
  | EmptyString => EmptyString
  | String d rest =>
      match rstrip rest with
      | EmptyString => if is_space d then EmptyString else String d EmptyString
      | r => String d r
      end
  end.

(** [s.strip()] *)
Definition strip (s : string) : string := rstrip (lstrip s).

(** [str.lower] on one character, for code points below 256. *)
Definition lower_char (c : ascii) : ascii :=
  let n := nat_of_ascii c in
  if (((65 <=? n) && (n <=? 90))
      || ((192 <=? n) && (n <=? 214)) || ((216 <=? n) && (n <=? 222)))%nat
  then ascii_of_nat (n + 32) else c.

Fixpoint lower (s : string) : string :=
  match s with
  | EmptyString => EmptyString
  | String d rest => String (lower_char d) (lower rest)
  end.

(** [str(n)] for a non-negative integer. *)
Definition of_nat (n : nat) : string := NilZero.string_of_uint (Nat.to_uint n).

(** [" ".join(parts)] *)
Fixpoint join (sep : string) (parts : list string) : string :=
  match parts with
  | [] => EmptyString
  | [p] => p
  | p :: rest => (p ++ sep ++ join sep rest)%string
  end.

(** [x in xs] for a collection of strings. *)
Definition mem (x : string) (xs : list string) : bool :=
  existsb (String.eqb x) xs.

End Str.

(* ====================================================================== *)
(** ** Results of calls that can raise *)
(* ====================================================================== *)

(** The exceptions that play a part: [ValueError] of [list.index] and of
    [ast.parse], [IndexError] of [list.pop], [OSError] of [os.stat],
    [RecursionError] of the interpreter. *)
Inductive exn := ValueError | IndexError | OSError | RecursionError.

(** [Done a]: the call returned [a]. [Raised e]: it raised [e].
    [OutOfFuel]: the recursion bound of the model was reached (shown below
    never to happen with the bound [find_circular_dependencies] uses; under
    the recursion limit of an interpreter it is [RecursionError]). *)
Inductive result (A : Type) : Type :=
| Done (a : A)
| Raised (e : exn)
| OutOfFuel.
Arguments Done {A} a.
Arguments Raised {A} e.
Arguments OutOfFuel {A}.

Definition bind {A B : Type} (c : result A) (k : A -> result B) : result B :=
  match c with
  | Done a => k a
  | Raised e => Raised e
  | OutOfFuel => OutOfFuel
  end.

Notation "x <- c ;; k" := (bind c (fun x => k))
  (at level 61, c at next level, right associativity).

(* ====================================================================== *)
(** ** Python sets and dicts *)
(* ====================================================================== *)

(** The order in which Python iterates a set of strings. The argument is
    the set as a duplicate-free list in insertion order. *)
Class SetOrder := {
  set_iter : list string -> list string;
  set_iter_perm : forall s, Permutation (set_iter s) s
}.

(** [s.add(x)] *)
Definition set_add (x : string) (s : list string) : list string :=
  if Str.mem x s then s else s ++ [x].

(** [set(xs)] *)
Definition set_of_list (xs : list string) : list string :=
  fold_left (fun s x => set_add x s) xs [].

Module Dict.
Section WithValues.
Variable V : Type.

Definition t := list (string * V).

(** [d.get(k)] *)
Fixpoint get (d : t) (k : string) : option V :=
  match d with
  | [] => None
  | (k', v) :: rest => if k' =? k then Some v else get rest k
  end.

(** [k in d] *)
Definition mem (k : string) (d : t) : bool := Str.mem k (map fst d).

(** [d[k] = f(d[k])] on a [defaultdict] whose factory returns [dflt]:
    an absent key is created at the end of the dict. *)
Fixpoint alter (f : V -> V) (dflt : V) (k : string) (d : t) : t :=
  match d with
  | [] => [(k, f dflt)]
  | (k', v) :: rest =>
      if k' =? k then (k', f v) :: rest
      else (k', v) :: alter f dflt k rest
  end.

Definition keys (d : t) : list string := map fst d.
Definition values (d : t) : list V := map snd d.
End WithValues.
End Dict.

(** [sorted(l, key=key, reverse=True)]: descending, and stable (elements
    with equal keys keep their order). *)
Fixpoint insert_desc {A : Type} (key : A -> nat) (x : A) (l : list A) : list A :=
  match l with
  | [] => [x]
  | y :: rest =>
      if (key x <? key y)%nat then y :: insert_desc key x rest else x :: l
  end.

Definition sorted_desc {A : Type} (key : A -> nat) (l : list A) : list A :=
  fold_right (insert_desc key) [] l.

(* ====================================================================== *)
(** ** The host: pathlib, open, ast and re *)
(* ====================================================================== *)

(** The module tuple [(module, type, symbols)] every extractor produces. *)
Definition ImportRecord : Type := string * string * list string.

(** The part of a Python syntax tree the visitor looks at: the two import
    statements, and any other node with its child nodes in visiting order. *)
Inductive alias := Alias (name : string) (asname : option string).

#[warnings="-register-all"]
Inductive ast :=
| Import (names : list alias)
| ImportFrom (module : option string) (names : list alias) (level : nat)
| Node (children : list ast).

(** [ast.parse(code)] returns a tree or raises [SyntaxError]. *)
Inductive parse_outcome := Parsed (tree : ast) | SyntaxError.

(** The regular expressions of the source, by the name of the variable
    that holds them ([PY_IMPORT] and [PY_FROM] are searched with
    [re.MULTILINE]). *)
Inductive pattern :=
| PY_IMPORT      (* import_pattern of parse_python_imports_regex *)
| PY_FROM        (* from_pattern *)
| JS_DEFAULT     (* default_import *)
| JS_NAMED       (* named_import *)
| JS_NAMESPACE   (* namespace_import *)
| JS_REQUIRE     (* require_pattern *)
| JS_DYNAMIC     (* dynamic_import *)
| JAVA_IMPORT    (* import_pattern of parse_java_imports *)
| GO_SINGLE      (* single_import *)
| GO_BLOCK       (* block_pattern *)
| GO_LINE.       (* line_pattern *)

(** One match: [group(0)], [group(1)], [group(2)]. A group that is absent
    or did not take part is the empty string; the only optional group, the
    alias of [GO_LINE], cannot match the empty string and the source reads
    it as [group(1) or] the empty string. *)
Record re_match := { group0 : string; group1 : string; group2 : string }.

Record Host := {
  (** [Path(p).exists()], [Path(p).is_file()], [Path(p).is_dir()] *)
  path_exists : string -> bool;
  path_is_file : string -> bool;
  path_is_dir : string -> bool;
  (** [str(Path(p))] *)
  path_str : string -> string;
  (** [Path(p).suffix] *)
  path_suffix : string -> string;
  (** [str(Path(p).parent)] *)
  path_parent : string -> string;
  (** [str(Path(p).relative_to(q))] *)
  path_relative_to : string -> string -> string;
  (** [[str(f) for f in Path(p).rglob(pat)]] *)
  path_rglob : string -> string -> list string;
  (** [open(p, encoding='utf-8', errors='ignore').read()]; [None] when
      opening or reading raised. *)
  read_text : string -> option string;
  (** [ast.parse(code)] *)
  ast_parse : string -> parse_outcome;
  (** [re.finditer(pattern, text)], the matches from left to right. *)
  re_finditer : pattern -> string -> list re_match
}.

(* ====================================================================== *)
(** ** Language detection *)
(* ====================================================================== *)

Definition EXTENSION_TO_LANGUAGE : Dict.t string :=
  [ (".py", "python"); (".js", "javascript"); (".mjs", "javascript");
    (".cjs", "javascript"); (".jsx", "javascript"); (".ts", "typescript");
    (".tsx", "typescript"); (".java", "java"); (".go", "go") ].

Definition detect_language (h : Host) (file_path : string) : string :=
  let ext := Str.lower (path_suffix h file_path) in
  match Dict.get EXTENSION_TO_LANGUAGE ext with
  | Some lang => lang
  | None => "unknown"
  end.

Definition get_source_files (h : Host) (path language : string) : list string :=
  if path_is_file h path then [path_str h path]
  else if negb (path_is_dir h path) then []
  else
    let extensions :=
      if language =? "auto" then Dict.keys EXTENSION_TO_LANGUAGE
      else map fst (filter (fun el => snd el =? language) EXTENSION_TO_LANGUAGE) in
    flat_map (fun ext => path_rglob h path ("*" ++ ext)%string) extensions.

(* ====================================================================== *)
(** ** Import extractors *)
(* ====================================================================== *)

(** [alias.asname or alias.name] *)
Definition bound_name (a : alias) : string :=
  match a with
  | Alias name (Some asname) => if asname =? EmptyString then name else asname
  | Alias name None => name
  end.

Definition alias_name (a : alias) : string :=
  match a with Alias name _ => name end.

(** [PythonImportVisitor.visit]: [imports] is [self.imports]. The children
    of an import statement are aliases, so [generic_visit] adds nothing
    below one. *)
Fixpoint visit (node : ast) (imports : list ImportRecord) : list ImportRecord :=
  match node with
  | Import names =>
      imports ++ map (fun a => (alias_name a, "direct", [bound_name a])) names
  | ImportFrom module names _ =>
      let module := match module with Some m => m | None => EmptyString end in
      imports ++ [(module, "from", map alias_name names)]
  | Node children =>
      fold_left (fun acc child => visit child acc) children imports
  end.

Definition parse_python_imports_regex (h : Host) (code : string)
  : list ImportRecord :=
  let direct :=
    flat_map
      (fun m =>
         let modules := map Str.strip (Str.split "," (group1 m)) in
         flat_map
           (fun module =>
              if module =? EmptyString then []
              else [(Str.first_field "." module, "direct", [module])])
           modules)
      (re_finditer h PY_IMPORT code) in
  let from :=
    map (fun m =>
           (group1 m, "from", map Str.strip (Str.split "," (group2 m))))
        (re_finditer h PY_FROM code) in
  direct ++ from.

Definition parse_python_imports (h : Host) (code : string)
  : result (list ImportRecord) :=
  match ast_parse h code with
  | Parsed tree => Done (visit tree [])
  | SyntaxError => Done (parse_python_imports_regex h code)
  end.

Definition parse_js_imports (h : Host) (code : string) : list ImportRecord :=
  map (fun m => (group2 m, "default", [group1 m])) (re_finditer h JS_DEFAULT code)
  ++ map (fun m =>
            let symbols :=
              map (fun s => Str.before_first " as " (Str.strip s))
                  (Str.split "," (group1 m)) in
            (group2 m, "named", symbols))
         (re_finditer h JS_NAMED code)
  ++ map (fun m => (group2 m, "namespace", [group1 m]))
         (re_finditer h JS_NAMESPACE code)
  ++ map (fun m => (group2 m, "require", [group1 m]))
         (re_finditer h JS_REQUIRE code)
  ++ map (fun m => (group1 m, "dynamic", [])) (re_finditer h JS_DYNAMIC code).

Definition parse_java_imports (h : Host) (code : string) : list ImportRecord :=
  map (fun m =>
         let full_import := group1 m in
         let is_static := Str.contains_str "static" (group0 m) in
         let import_type := if is_static then "static" else "direct" in
         let symbol := Str.last_field "." full_import in
         (full_import, import_type, [symbol]))
      (re_finditer h JAVA_IMPORT code).

Definition parse_go_imports (h : Host) (code : string) : list ImportRecord :=
  map (fun m => (group1 m, "direct", [])) (re_finditer h GO_SINGLE code)
  ++ flat_map
       (fun m =>
          let block := group1 m in
          map (fun line_match =>
                 let alias := group1 line_match in
                 let path := group2 line_match in
                 if alias =? EmptyString then (path, "direct", [])
                 else (path, "aliased", [alias]))
              (re_finditer h GO_LINE block))
       (re_finditer h GO_BLOCK code).

(* ====================================================================== *)
(** ** Dependency classification *)
(* ====================================================================== *)

Definition PYTHON_STDLIB : list string :=
  [ "os"; "sys"; "re"; "json"; "time"; "datetime"; "pathlib"; "collections";
    "itertools"; "functools"; "typing"; "abc"; "ast"; "io"; "math"; "random";
    "subprocess"; "threading"; "multiprocessing"; "logging"; "unittest";
    "argparse"; "configparser"; "dataclasses"; "enum"; "copy"; "hashlib";
    "base64"; "urllib"; "http"; "socket"; "email"; "html"; "xml"; "sqlite3" ].

Definition JAVASCRIPT_BUILTIN : list string :=
  [ "fs"; "path"; "http"; "https"; "crypto"; "os"; "child_process"; "events";
    "stream"; "util"; "url"; "querystring"; "assert"; "buffer"; "cluster";
    "dns"; "net"; "process"; "readline"; "tls"; "vm"; "zlib" ].

(** [is_external_dependency(module, language, source_file)]: [true] is
    the answer external, [false] the answer internal. *)
Definition is_external_dependency (module language source_file : string) : bool :=
  if Str.startswith module "." then false
  else if language =? "python" then
    let root_module := Str.first_field "." module in
    negb (Str.mem root_module PYTHON_STDLIB)
  else if (language =? "javascript") || (language =? "typescript") then
    if Str.startswith module "." || Str.startswith module "/" then false
    else if Str.mem module JAVASCRIPT_BUILTIN || Str.startswith module "node:"
         then true
    else true
  else if language =? "java" then
    negb (Str.startswith module "java." || Str.startswith module "javax.")
  else if language =? "go" then
    Str.contains "." module || Str.contains "/" module
  else true.

(* ====================================================================== *)
(** ** Dependency mapping *)
(* ====================================================================== *)

Definition parse_file_imports (h : Host) (file_path language : string)
  : result (list ImportRecord) :=
  match read_text h file_path with
  | None => Done []
  | Some code =>
      if language =? "python" then parse_python_imports h code
      else if (language =? "javascript") || (language =? "typescript")
      then Done (parse_js_imports h code)
      else if language =? "java" then Done (parse_java_imports h code)
      else if language =? "go" then Done (parse_go_imports h code)
      else Done []
  end.

(* ---------------------------------------------------------------------- *)
(** *** Cycle search *)

(** [path.index(node)]: the position of the first occurrence. *)
Fixpoint index (node : string) (path : list string) : option nat :=
  match path with
  | [] => None
  | x :: rest => if x =? node then Some 0 else option_map S (index node rest)
  end.

(** [cycle in cycles] *)
Definition cycle_mem (cycle : list string) (cycles : list (list string)) : bool :=
  existsb (fun c => if list_eq_dec string_dec c cycle then true else false) cycles.

(** The three variables the nested function [dfs] closes over. *)
Record dfs_state := {
  cycles : list (list string);
  visited : list string;
  rec_stack : list string
}.

Section CycleSearch.
Context {order : SetOrder}.
Variable edges : Dict.t (list string).

(** [edges.get(node, set())] *)
Definition neighbors (node : string) : list string :=
  match Dict.get edges node with
  | Some targets => targets
  | None => []
  end.

(** [dfs(node, path)]. [fuel] bounds the depth of the recursion. *)
Fixpoint dfs (fuel : nat) (node : string) (path : list string)
         (st : dfs_state) : result dfs_state :=
  match fuel with
  | O => OutOfFuel
  | S fuel' =>
      if Str.mem node (rec_stack st) then
        match index node path with
        | None => Raised ValueError
        | Some cycle_start =>
            let cycle := skipn cycle_start path ++ [node] in
            if (1 <? List.length cycle)%nat && negb (cycle_mem cycle (cycles st))
            then Done {| cycles := cycles st ++ [cycle];
                         visited := visited st;
                         rec_stack := rec_stack st |}
            else Done st
        end
      else if Str.mem node (visited st) then Done st
      else
        let st1 := {| cycles := cycles st;
                      visited := set_add node (visited st);
                      rec_stack := rec_stack st ++ [node] |} in
        st2 <- fold_left
                 (fun acc neighbor =>
                    st' <- acc ;; dfs fuel' neighbor (path ++ [node]) st')
                 (set_iter (neighbors node)) (Done st1) ;;
        match rec_stack st2 with
        | [] => Raised IndexError
        | _ :: _ => Done {| cycles := cycles st2;
                            visited := visited st2;
                            rec_stack := removelast (rec_stack st2) |}
        end
  end.

(** Every node the search can meet: the keys and all their targets. *)
Definition graph_nodes_of : list string :=
  Dict.keys edges ++ List.concat (Dict.values edges).

(** The depth bound: one more than the number of node occurrences. *)
Definition dfs_fuel : nat := S (List.length graph_nodes_of).

Definition find_circular_dependencies : result (list (list string)) :=
  st <- fold_left
          (fun acc node =>
             st <- acc ;;
             if negb (Str.mem node (visited st)) then dfs dfs_fuel node [] st
             else Done st)
          (Dict.keys edges)
          (Done {| cycles := []; visited := []; rec_stack := [] |}) ;;
  Done (firstn 10 (cycles st)).

End CycleSearch.

(* ---------------------------------------------------------------------- *)
(** *** Request and response models *)

Record ExecuteInputs := {
  source_path : string;
  (** [Optional[str]]: an absent language behaves as a tag no rule knows. *)
  language : string;
  depth : Z;
  include_external : bool;
  output_format : string
}.

Module InternalDependency.
Record t := {
  source : string;
  target : string;
  import_type : string;
  symbols : list string
}.
End InternalDependency.

Module ExternalDependency.
Record t := {
  name : string;
  used_in : list string;
  import_count : nat
}.
End ExternalDependency.

Module GraphNode.
Record t := { id : string; type : string; path : string }.
End GraphNode.

Module GraphEdge.
Record t := { source : string; target : string; weight : nat }.
End GraphEdge.

Module DependencyGraph.
Record t := { nodes : list GraphNode.t; edges : list GraphEdge.t }.
End DependencyGraph.

Module HighlyDepended.
Record t := { path : string; dependents_count : nat }.
End HighlyDepended.

Module MapOutputs.
Record t := {
  summary : string;
  total_dependencies : nat;
  internal_dependencies : list InternalDependency.t;
  external_dependencies : list ExternalDependency.t;
  dependency_graph : DependencyGraph.t;
  circular_dependencies : list (list string);
  entry_points : list string;
  highly_depended : list HighlyDepended.t
}.

(** [MapOutputs(summary=s, total_dependencies=0)]: every other field
    takes its default. *)
Definition with_summary (s : string) : t :=
  {| summary := s;
     total_dependencies := 0;
     internal_dependencies := [];
     external_dependencies := [];
     dependency_graph := {| DependencyGraph.nodes := [];
                            DependencyGraph.edges := [] |};
     circular_dependencies := [];
     entry_points := [];
     highly_depended := [] |}.
End MapOutputs.

(* ---------------------------------------------------------------------- *)
(** *** [map_dependencies] *)

(** A value of [external_deps_map]: the dict with keys [used_in], [count]. *)
Module Usage.
Record t := { used_in : list string; count : nat }.
Definition empty : t := {| used_in := []; count := 0 |}.
End Usage.

(** The five accumulators of the loop over the source files. *)
Record scan_state := {
  internal_deps : list InternalDependency.t;
  external_deps_map : Dict.t Usage.t;
  edges : Dict.t (list string);
  all_nodes : list string;
  external_nodes : list string
}.

Definition initial_scan_state : scan_state :=
  {| internal_deps := []; external_deps_map := []; edges := [];
     all_nodes := []; external_nodes := [] |}.

(** The body of the loop over the imports of one file. *)
Definition record_import (include_ext : bool)
           (file_lang file_path relative_path : string)
           (acc : scan_state) (imp : ImportRecord) : scan_state :=
  let '(module, import_type, symbols) := imp in
  if module =? EmptyString then acc
  else if is_external_dependency module file_lang file_path then
    if include_ext then
      let root_module := Str.first_field "." (Str.first_field "/" module) in
      {| internal_deps := internal_deps acc;
         external_deps_map :=
           Dict.alter
             (fun info => {| Usage.used_in := Usage.used_in info ++ [relative_path];
                             Usage.count := Usage.count info + 1 |})
             Usage.empty root_module (external_deps_map acc);
         edges := edges acc;
         all_nodes := all_nodes acc;
         external_nodes := set_add root_module (external_nodes acc) |}
    else acc
  else
    {| internal_deps :=
         internal_deps acc
         ++ [ {| InternalDependency.source := relative_path;
                 InternalDependency.target := module;
                 InternalDependency.import_type := import_type;
                 InternalDependency.symbols := symbols |} ];
       external_deps_map := external_deps_map acc;
       edges := Dict.alter (set_add module) [] relative_path (edges acc);
       all_nodes := set_add module (all_nodes acc);
       external_nodes := external_nodes acc |}.

Section Mapping.
Context {order : SetOrder}.
Variable h : Host.

(** [file_lang]: the requested language, or the detected one. *)
Definition file_language (inputs : ExecuteInputs) (file_path : string)
  : string :=
  if negb (language inputs =? "auto") then language inputs
  else detect_language h file_path.

(** [relative_path]: the node id of a scanned file. *)
Definition relative_path_of (inputs : ExecuteInputs) (file_path : string)
  : string :=
  path_relative_to h file_path
    (if path_is_file h (source_path inputs)
     then path_parent h (source_path inputs)
     else source_path inputs).

(** The body of the loop over the source files. *)
Definition scan_file (inputs : ExecuteInputs) (acc : scan_state)
           (file_path : string) : result scan_state :=
  let file_lang := file_language inputs file_path in
  imports <- parse_file_imports h file_path file_lang ;;
  let relative_path := relative_path_of inputs file_path in
  let acc1 := {| internal_deps := internal_deps acc;
                 external_deps_map := external_deps_map acc;
                 edges := edges acc;
                 all_nodes := set_add relative_path (all_nodes acc);
                 external_nodes := external_nodes acc |} in
  Done (fold_left
          (record_import (include_external inputs) file_lang file_path
                         relative_path)
          imports acc1).

Definition scan_files (inputs : ExecuteInputs) (source_files : list string)
  : result scan_state :=
  fold_left (fun acc file_path => st <- acc ;; scan_file inputs st file_path)
            source_files (Done initial_scan_state).

(** The external dependency list, most imported first. *)
Definition build_external_deps (m : Dict.t Usage.t)
  : list ExternalDependency.t :=
  map (fun entry =>
         {| ExternalDependency.name := fst entry;
            ExternalDependency.used_in :=
              firstn 10 (set_iter (set_of_list (Usage.used_in (snd entry))));
            ExternalDependency.import_count := Usage.count (snd entry) |})
      (sorted_desc (fun entry => Usage.count (snd entry)) m).

Definition build_graph_nodes (st : scan_state) : list GraphNode.t :=
  map (fun node => {| GraphNode.id := node; GraphNode.type := "internal";
                      GraphNode.path := node |})
      (set_iter (all_nodes st))
  ++ map (fun node => {| GraphNode.id := node; GraphNode.type := "external";
                         GraphNode.path := node |})
         (set_iter (external_nodes st)).

Definition build_graph_edges (e : Dict.t (list string)) : list GraphEdge.t :=
  flat_map
    (fun entry =>
       map (fun target => {| GraphEdge.source := fst entry;
                             GraphEdge.target := target;
                             GraphEdge.weight := 1 |})
           (set_iter (snd entry)))
    e.

(** The set [targets]: [targets.update(t_set)] for every value. *)
Definition edge_targets (e : Dict.t (list string)) : list string :=
  fold_left
    (fun targets t_set =>
       fold_left (fun acc t => set_add t acc) (set_iter t_set) targets)
    (Dict.values e) [].

Definition find_entry_points (st : scan_state) : list string :=
  let targets := edge_targets (edges st) in
  filter (fun n => negb (Str.mem n targets) && Dict.mem n (edges st))
         (set_iter (all_nodes st)).

Definition build_highly_depended (e : Dict.t (list string))
  : list HighlyDepended.t :=
  let targets := edge_targets e in
  let dependent_counts : Dict.t nat :=
    fold_left
      (fun d target =>
         Dict.alter
           (fun _ => List.length (filter (Str.mem target) (Dict.values e)))
           0 target d)
      (set_iter targets) [] in
  map (fun entry => {| HighlyDepended.path := fst entry;
                       HighlyDepended.dependents_count := snd entry |})
      (firstn 10 (sorted_desc snd dependent_counts)).

Definition build_summary (source_files : list string)
           (internal : list InternalDependency.t)
           (external : list ExternalDependency.t)
           (circular : list (list string))
           (highly : list HighlyDepended.t) : string :=
  let summary_parts :=
    [ ("Analyzed " ++ Str.of_nat (List.length source_files)
         ++ " file(s).")%string;
      ("Found " ++ Str.of_nat (List.length internal) ++ " internal and "
         ++ Str.of_nat (List.length external)
         ++ " external dependencies.")%string ]
    ++ (match circular with
        | [] => []
        | _ :: _ => [ ("Detected " ++ Str.of_nat (List.length circular)
                         ++ " circular dependency chain(s).")%string ]
        end)
    ++ (match highly with
        | [] => []
        | top :: _ =>
            [ ("Most depended: " ++ HighlyDepended.path top ++ " ("
                 ++ Str.of_nat (HighlyDepended.dependents_count top)
                 ++ " dependents).")%string ]
        end) in
  Str.join " " summary_parts.

(** The end of [map_dependencies], from the building of the external
    dependency list to the returned [MapOutputs]; [circular] is what
    the cycle search returned. *)
Definition assemble (source_files : list string) (st : scan_state)
           (circular : list (list string)) : MapOutputs.t :=
  let external_deps := build_external_deps (external_deps_map st) in
  let graph_nodes := build_graph_nodes st in
  let graph_edges := build_graph_edges (edges st) in
  let entry_points := find_entry_points st in
  let highly_depended := build_highly_depended (edges st) in
  let total := List.length (internal_deps st) + List.length external_deps in
  {| MapOutputs.summary :=
       build_summary source_files (internal_deps st) external_deps
                     circular highly_depended;
     MapOutputs.total_dependencies := total;
     MapOutputs.internal_dependencies := firstn 100 (internal_deps st);
     MapOutputs.external_dependencies := firstn 50 external_deps;
     MapOutputs.dependency_graph :=
       {| DependencyGraph.nodes := firstn 200 graph_nodes;
          DependencyGraph.edges := firstn 500 graph_edges |};
     MapOutputs.circular_dependencies := circular;
     MapOutputs.entry_points := firstn 20 entry_points;
     MapOutputs.highly_depended := highly_depended |}.

Definition map_dependencies (inputs : ExecuteInputs) : result MapOutputs.t :=
  if negb (path_exists h (source_path inputs)) then
    Done (MapOutputs.with_summary
            ("Path not found: " ++ source_path inputs)%string)
  else
    let source_files :=
      get_source_files h (source_path inputs) (language inputs) in
    match source_files with
    | [] =>
        Done (MapOutputs.with_summary
                ("No source files found in: " ++ source_path inputs)%string)
    | _ :: _ =>
        st <- scan_files inputs source_files ;;
        circular <- find_circular_dependencies (edges st) ;;
        Done (assemble source_files st circular)
    end.

End Mapping.

(* ---------------------------------------------------------------------- *)
(** *** Exceptions that no statement of the source handles *)

(** The definitions above follow the statements of the source. Three
    calls of the source can raise an exception that it does not catch;
    [Interpreter] says when they do. *)
Record Interpreter := {
  (** [Path(p).exists()] raises [OSError]: pathlib answers [False] when
      [os.stat] fails with ENOENT, ENOTDIR, EBADF or ELOOP and lets every
      other error through (a name longer than the file system allows, a
      directory that may not be searched). *)
  exists_raises : string -> bool;
  (** [ast.parse(code)] or the visit of its tree raises an exception that
      is not [SyntaxError] ([ValueError] for a null byte, [RecursionError]
      for deep nesting); it is read where [ast_parse] does not answer
      [SyntaxError]. *)
  parse_raises : string -> option exn;
  (** How many calls of [dfs] can be nested before the recursion limit
      of the interpreter is reached. *)
  recursion_limit : nat
}.

(** The functions that meet one of these exceptions, under their names in
    the source; the others are as above. *)
Module Run.
Section WithInterpreter.
Context {order : SetOrder}.
Variables (py : Interpreter) (h : Host).

(** Only [SyntaxError] is caught. *)
Definition parse_python_imports (code : string)
  : result (list ImportRecord) :=
  match ast_parse h code with
  | SyntaxError => Done (parse_python_imports_regex h code)
  | Parsed tree =>
      match parse_raises py code with
      | Some e => Raised e
      | None => Done (visit tree [])
      end
  end.

Definition parse_file_imports (file_path language : string)
  : result (list ImportRecord) :=
  match read_text h file_path with
  | None => Done []
  | Some code =>
      if language =? "python" then parse_python_imports code
      else if (language =? "javascript") || (language =? "typescript")
      then Done (parse_js_imports h code)
      else if language =? "java" then Done (parse_java_imports h code)
      else if language =? "go" then Done (parse_go_imports h code)
      else Done []
  end.

(** A call of [dfs] nested deeper than the limit raises [RecursionError],
    which nothing catches on the way out. *)
Definition find_circular_dependencies (edges : Dict.t (list string))
  : result (list (list string)) :=
  match
    fold_left
      (fun acc node =>
         st <- acc ;;
         if negb (Str.mem node (visited st))
         then dfs edges (recursion_limit py) node [] st
         else Done st)
      (Dict.keys edges)
      (Done {| cycles := []; visited := []; rec_stack := [] |})
  with
  | Done st => Done (firstn 10 (cycles st))
  | Raised e => Raised e
  | OutOfFuel => Raised RecursionError
  end.

Definition scan_file (inputs : ExecuteInputs) (acc : scan_state)
           (file_path : string) : result scan_state :=
  let file_lang := file_language h inputs file_path in
  imports <- parse_file_imports file_path file_lang ;;
  let relative_path := relative_path_of h inputs file_path in
  let acc1 := {| internal_deps := internal_deps acc;
                 external_deps_map := external_deps_map acc;
                 edges := edges acc;
                 all_nodes := set_add relative_path (all_nodes acc);
                 external_nodes := external_nodes acc |} in
  Done (fold_left
          (record_import (include_external inputs) file_lang file_path
                         relative_path)
          imports acc1).

Definition scan_files (inputs : ExecuteInputs) (source_files : list string)
  : result scan_state :=
  fold_left (fun acc file_path => st <- acc ;; scan_file inputs st file_path)
            source_files (Done initial_scan_state).

Definition map_dependencies (inputs : ExecuteInputs) : result MapOutputs.t :=
  if exists_raises py (source_path inputs) then Raised OSError
  else if negb (path_exists h (source_path inputs)) then
    Done (MapOutputs.with_summary
            ("Path not found: " ++ source_path inputs)%string)
  else
    let source_files :=
      get_source_files h (source_path inputs) (language inputs) in
    match source_files with
    | [] =>
        Done (MapOutputs.with_summary
                ("No source files found in: " ++ source_path inputs)%string)
    | _ :: _ =>
        st <- scan_files inputs source_files ;;
        circular <- find_circular_dependencies (edges st) ;;
        Done (assemble source_files st circular)
    end.

End WithInterpreter.
End Run.

(** Sets iterated in insertion order: one admissible [SetOrder]. *)
Definition insertion_order : SetOrder :=
  {| set_iter := fun s => s; set_iter_perm := @Permutation_refl string |}.

(* ====================================================================== *)
(** ** An in-memory host, to run the engine on concrete projects *)
(* ====================================================================== *)

Module Memory.

(** A file of the project: its path below the root, its suffix, its
    text, what [ast.parse] answers on the text and the matches of each
    regular expression in it. *)
Record file := {
  rel_path : string;
  suffix : string;
  text : string;
  tree : parse_outcome;
  matches : pattern -> list re_match
}.

Fixpoint strip_prefix (p s : string) : option string :=
  match p, s with
  | EmptyString, _ => Some s
  | String a p', String b s' =>
      if Ascii.eqb a b then strip_prefix p' s' else None
  | String _ _, EmptyString => None
  end.

Definition full_path (root : string) (f : file) : string :=
  (root ++ "/" ++ rel_path f)%string.

Definition by_path (root : string) (files : list file) (p : string)
  : option file :=
  find (fun f => full_path root f =? p) files.

Definition by_text (files : list file) (code : string) : option file :=
  find (fun f => text f =? code) files.

(** A directory [root] that holds [files] and nothing else. *)
Definition host (root : string) (files : list file) : Host :=
  {| path_exists := fun p => p =? root;
     path_is_file := fun _ => false;
     path_is_dir := fun p => p =? root;
     path_str := fun p => p;
     path_suffix := fun p =>
       match by_path root files p with
       | Some f => suffix f
       | None => EmptyString
       end;
     path_parent := fun _ => ".";
     path_relative_to := fun p q =>
       match strip_prefix (q ++ "/")%string p with
       | Some r => r
       | None => p
       end;
     path_rglob := fun p pat =>
       if p =? root
       then map (full_path root)
                (filter (fun f => ("*" ++ suffix f)%string =? pat) files)
       else [];
     read_text := fun p => option_map text (by_path root files p);
     ast_parse := fun code =>
       match by_text files code with
       | Some f => tree f
       | None => SyntaxError
       end;
     re_finditer := fun pat code =>
       match by_text files code with
       | Some f => matches f pat
       | None => []
       end |}.

Definition newline : string := String (ascii_of_nat 10) EmptyString.

(** The JavaScript line [import <name> from '<target>';] and its one
    match, which is a match of [default_import]. *)
Definition js_default_line (name target : string) : string :=
  ("import " ++ name ++ " from '" ++ target ++ "';")%string.

Definition js_default_match (name target : string) : re_match :=
  {| group0 := ("import " ++ name ++ " from '" ++ target ++ "'")%string;
     group1 := name;
     group2 := target |}.

(** A JavaScript file made of default imports only: one line, and one
    match of [default_import], for each [(name, target)]. *)
Definition js_file (rel : string) (imports : list (string * string)) : file :=
  {| rel_path := rel;
     suffix := ".js";
     text := String.concat newline
               (map (fun nt => js_default_line (fst nt) (snd nt)) imports);
     tree := SyntaxError;
     matches := fun pat =>
       match pat with
       | JS_DEFAULT =>
           map (fun nt => js_default_match (fst nt) (snd nt)) imports
       | _ => []
       end |}.

Definition inputs (root : string) (include_ext : bool) : ExecuteInputs :=
  {| source_path := root; language := "auto"; depth := 3%Z;
     include_external := include_ext; output_format := "summary" |}.

(** Scenario A as written on disk: [a.js] imports [./b], [b.js]
    imports [./a]. *)
Definition two_files : list file :=
  [ js_file "a.js" [("b", "./b")]; js_file "b.js" [("a", "./a")] ].


(** One file that imports [./b] a hundred and one times. *)
Definition repeated_import : list file :=
  [ js_file "big.js" (repeat ("b", "./b") 101) ].


(** A Python file that does not parse (an unclosed parenthesis): the
    line [import os], then [def broken(]. The class of [import_pattern]
    takes word characters and white space, so its one match runs up to
    the parenthesis. *)
Definition broken_text : string :=
  ("import os" ++ newline ++ "def broken(" ++ newline)%string.

Definition broken_python : list file :=
  [ {| rel_path := "broken.py";
       suffix := ".py";
       text := broken_text;
       tree := SyntaxError;
       matches := fun pat =>
         match pat with
         | PY_IMPORT =>
             [ {| group0 := ("import os" ++ newline ++ "def broken")%string;
                  group1 := ("os" ++ newline ++ "def broken")%string;
                  group2 := EmptyString |} ]
         | _ => []
         end |} ].

(** An interpreter with the defaults of CPython 3.11 on Linux: a path
    with a component of more than 255 bytes makes [os.stat] fail with
    ENAMETOOLONG, [ast.parse] raises [ValueError] on a text with a null
    byte, and the recursion limit is 1000 frames, so fewer than that are
    left for [dfs]. *)
Definition interpreter : Interpreter :=
  {| exists_raises := fun p =>
       existsb (fun part => (255 <? String.length part)%nat)
               (Str.split "/" p);
     parse_raises := fun code =>
       if Str.contains (ascii_of_nat 0) code then Some ValueError else None;
     recursion_limit := 1000 |}.



End Memory.

(* ====================================================================== *)
(** ** Vocabulary of the statements *)
(* ====================================================================== *)

(** [ok P r]: [r] did not raise, and satisfies [P] if it returned. *)
Definition ok {S : Type} (P : S -> Prop) (r : result S) : Prop :=
  match r with
  | Done s => P s
  | Raised _ => False
  | OutOfFuel => True
  end.

(** [returns P r]: [r] returned a value that satisfies [P]. *)
Definition returns {S : Type} (P : S -> Prop) (r : result S) : Prop :=
  exists s, r = Done s /\ P s.

(** The loops of the source that thread a [result] through a list. *)
Definition loop {S X : Type} (step : X -> S -> result S) (l : list X)
           (acc : result S) : result S :=
  fold_left (fun acc x => s <- acc ;; step x s) l acc.

(** A reported chain starts and ends with the same node. *)
Definition closed (c : list string) : Prop :=
  exists n body, c = n :: body ++ [n].

(** The number of node occurrences not visited yet: what bounds the
    depth of the recursion. *)
Definition unvisited (e : Dict.t (list string)) (v : list string) : nat :=
  List.length (filter (fun x => negb (Str.mem x v)) (graph_nodes_of e)).

(** What a call of [dfs] that starts with the stack equal to [path]
    guarantees when it returns: the stack is [path] again, the visited
    set has only grown, and the chains stay closed if they were. *)
Definition dfs_post (path : list string) (st st' : dfs_state) : Prop :=
  rec_stack st' = path /\ incl (visited st) (visited st')
  /\ (Forall closed (cycles st) -> Forall closed (cycles st')).

(** What the loop over the files maintains: every key of [edges] has a
    non-empty target set, the key and its targets are internal nodes, and
    nothing external is recorded when external dependencies are excluded. *)
Definition scan_inv (include_ext : bool) (st : scan_state) : Prop :=
  (forall k ts, In (k, ts) (edges st) ->
                ts <> [] /\ In k (all_nodes st) /\ incl ts (all_nodes st))
  /\ (include_ext = false -> external_deps_map st = []).

(* ====================================================================== *)
(** ** Vocabulary of the further properties *)
(* ====================================================================== *)

(** [walk e l]: every node of [l] but the last has the next node of [l]
    among its targets in the adjacency map [e]. *)
Fixpoint walk (e : Dict.t (list string)) (l : list string) : Prop :=
  match l with
  | x :: rest =>
      match rest with
      | y :: _ => In y (neighbors e x) /\ walk e rest
      | [] => True
      end
  | [] => True
  end.

(** [reach e x y]: one or more edges of [e] lead from [x] to [y]. *)
Inductive reach (e : Dict.t (list string)) : string -> string -> Prop :=
| reach_edge (x y : string) : In y (neighbors e x) -> reach e x y
| reach_more (x y z : string) :
    In y (neighbors e x) -> reach e y z -> reach e x z.

(** A chain that comes back to its first node without meeting any other
    node twice. *)
Definition simple_cycle (c : list string) : Prop :=
  exists n body, c = n :: body ++ [n] /\ NoDup (n :: body).

(** What the search keeps true of the chains found so far. *)
Definition chains_inv (e : Dict.t (list string)) (st : dfs_state) : Prop :=
  Forall (walk e) (cycles st) /\ Forall simple_cycle (cycles st)
  /\ NoDup (cycles st).

(** A node the search has finished with: visited and off the stack. *)
Definition finished (st : dfs_state) (x : string) : Prop :=
  In x (visited st) /\ ~ In x (rec_stack st).

(** While no chain has been found: the stack is visited, the targets of a
    finished node are finished, and no finished node reaches itself. *)
Definition finished_inv (e : Dict.t (list string)) (st : dfs_state) : Prop :=
  incl (rec_stack st) (visited st)
  /\ (forall b y, finished st b -> In y (neighbors e b) -> finished st y)
  /\ (forall b, finished st b -> ~ reach e b b).

(** What a call of [dfs] guarantees when no chain has been found by its
    end: none had been found before, the node is finished, and the
    invariant holds. *)
Definition quiet_post (e : Dict.t (list string)) (node : string)
           (st st' : dfs_state) : Prop :=
  cycles st' = [] ->
  cycles st = [] /\ finished st' node /\ finished_inv e st'.

(** The three ways the loop over the imports changes the accumulators:
    the node of the file is added, an internal import is recorded, an
    external import is recorded. *)
Definition with_file_node (n : string) (acc : scan_state) : scan_state :=
  {| internal_deps := internal_deps acc;
     external_deps_map := external_deps_map acc;
     edges := edges acc;
     all_nodes := set_add n (all_nodes acc);
     external_nodes := external_nodes acc |}.

Definition with_internal_import (relative_path module import_type : string)
           (symbols : list string) (acc : scan_state) : scan_state :=
  {| internal_deps :=
       internal_deps acc
       ++ [ {| InternalDependency.source := relative_path;
               InternalDependency.target := module;
               InternalDependency.import_type := import_type;
               InternalDependency.symbols := symbols |} ];
     external_deps_map := external_deps_map acc;
     edges := Dict.alter (set_add module) [] relative_path (edges acc);
     all_nodes := set_add module (all_nodes acc);
     external_nodes := external_nodes acc |}.

Definition with_external_import (relative_path root_module : string)
           (acc : scan_state) : scan_state :=
  {| internal_deps := internal_deps acc;
     external_deps_map :=
       Dict.alter
         (fun info => {| Usage.used_in := Usage.used_in info ++ [relative_path];
                         Usage.count := Usage.count info + 1 |})
         Usage.empty root_module (external_deps_map acc);
     edges := edges acc;
     all_nodes := all_nodes acc;
     external_nodes := set_add root_module (external_nodes acc) |}.

(** Where the internal dependency records and the edges come from, once
    the files [done] have been scanned: every record is an import of a
    scanned file that the classifier answered internal, the targets of a
    node in [edges] are the targets of its records, and neither the keys
    of [edges] nor a target set repeats an element. *)
Definition deps_inv (h : Host) (inputs : ExecuteInputs)
           (done : list string) (st : scan_state) : Prop :=
  (forall dep, In dep (internal_deps st) ->
     exists f,
       In f done
       /\ InternalDependency.source dep = relative_path_of h inputs f
       /\ InternalDependency.target dep <> EmptyString
       /\ is_external_dependency (InternalDependency.target dep)
                                 (file_language h inputs f) f = false)
  /\ (forall k t,
        In t (neighbors (edges st) k) <->
        exists dep, In dep (internal_deps st)
                    /\ InternalDependency.source dep = k
                    /\ InternalDependency.target dep = t)
  /\ NoDup (Dict.keys (edges st))
  /\ (forall k ts, In (k, ts) (edges st) -> NoDup ts).

(** The internal nodes once the files [done] have been scanned: the node
    ids of these files and the targets of the internal records, each
    once. *)
Definition nodes_inv (h : Host) (inputs : ExecuteInputs)
           (done : list string) (st : scan_state) : Prop :=
  NoDup (all_nodes st)
  /\ forall n,
       In n (all_nodes st) <->
       (exists f, In f done /\ n = relative_path_of h inputs f)
       \/ (exists dep, In dep (internal_deps st)
                       /\ InternalDependency.target dep = n).

(** The external accumulators once the files [done] have been scanned:
    the external nodes are the keys of the usage map, no key is repeated,
    and every usage counts its users, which are scanned files. *)
Definition ext_inv (h : Host) (inputs : ExecuteInputs)
           (done : list string) (st : scan_state) : Prop :=
  external_nodes st = Dict.keys (external_deps_map st)
  /\ NoDup (Dict.keys (external_deps_map st))
  /\ forall k u,
       In (k, u) (external_deps_map st) ->
       Usage.count u = List.length (Usage.used_in u)
       /\ Usage.used_in u <> []
       /\ forall p, In p (Usage.used_in u) ->
            exists f, In f done /\ p = relative_path_of h inputs f.

(** [descending key l]: the keys never increase along [l]. *)
Fixpoint descending {A : Type} (key : A -> nat) (l : list A) : Prop :=
  match l with
  | [] => True
  | x :: rest => Forall (fun y => key y <= key x) rest /\ descending key rest
  end.

(** A host whose only path is the file [dir/name], which holds [code];
    [outcome] is what [ast.parse] answers and [found] the matches of each
    regular expression. *)
Definition file_host (dir name code : string) (outcome : parse_outcome)
           (found : pattern -> list re_match) : Host :=
  {| path_exists := fun q => q =? (dir ++ "/" ++ name)%string;
     path_is_file := fun q => q =? (dir ++ "/" ++ name)%string;
     path_is_dir := fun _ => false;
     path_str := fun q => q;
     path_suffix := fun _ => EmptyString;
     path_parent := fun _ => dir;
     path_relative_to := fun q d =>
       match Memory.strip_prefix (d ++ "/")%string q with
       | Some r => r
       | None => q
       end;
     path_rglob := fun _ _ => [];
     read_text := fun q =>
       if q =? (dir ++ "/" ++ name)%string then Some code else None;
     ast_parse := fun _ => outcome;
     re_finditer := fun pat _ => found pat |}.

(** The imports of a file that the scan looks at: those with a module
    name. *)
Definition named_imports (h : Host) (inputs : ExecuteInputs) (f : string)
  : list ImportRecord :=
  match parse_file_imports h f (file_language h inputs f) with
  | Done imports =>
      filter (fun imp => negb (fst (fst imp) =? EmptyString)) imports
  | _ => []
  end.

(** Those the classifier answers internal for. *)
Definition internal_imports (h : Host) (inputs : ExecuteInputs) (f : string)
  : list ImportRecord :=
  filter (fun imp =>
            negb (is_external_dependency (fst (fst imp))
                                         (file_language h inputs f) f))
         (named_imports h inputs f).

(** The root names of those it answers external for, in import order. *)
Definition external_roots (h : Host) (inputs : ExecuteInputs) (f : string)
  : list string :=
  map (fun imp => Str.first_field "." (Str.first_field "/" (fst (fst imp))))
      (filter (fun imp =>
                 is_external_dependency (fst (fst imp))
                                        (file_language h inputs f) f)
              (named_imports h inputs f)).



(* ====================================================================== *)
(** * Properties *)
(* ====================================================================== *)

(** ** Text and collection helpers *)

Lemma mem_In (x : string) (xs : list string) :
  Str.mem x xs = true <-> In x xs.
Proof.
  unfold Str.mem. rewrite existsb_exists. split.
  - intros [y [Hy He]]. apply String.eqb_eq in He. now subst.
  - intros H. exists x. split; [assumption | apply String.eqb_refl].
Qed.

Lemma mem_nIn (x : string) (xs : list string) :
  Str.mem x xs = false <-> ~ In x xs.
Proof.
  rewrite <- mem_In. destruct (Str.mem x xs); split; intros; congruence.
Qed.

Lemma set_add_In (x y : string) (s : list string) :
  In y (set_add x s) <-> y = x \/ In y s.
Proof.
  unfold set_add. destruct (Str.mem x s) eqn:E.
  - apply mem_In in E. split; [now right | intros [->|H]; assumption].
  - rewrite in_app_iff. simpl. intuition congruence.
Qed.

Lemma set_iter_In {order : SetOrder} (x : string) (s : list string) :
  In x (set_iter s) <-> In x s.
Proof.
  split; apply Permutation_in;
    [apply set_iter_perm | apply Permutation_sym, set_iter_perm].
Qed.

Lemma set_iter_length {order : SetOrder} (s : list string) :
  List.length (set_iter s) = List.length s.
Proof. apply Permutation_length, set_iter_perm. Qed.

(** ** Loops that thread a [result] *)

Lemma ok_returns {S : Type} (P : S -> Prop) (r : result S) :
  ok P r -> r <> OutOfFuel -> returns P r.
Proof.
  destruct r; simpl; intros H N; [now exists a | contradiction | congruence].
Qed.

Section ResultLoops.
Variables (S X : Type) (step : X -> S -> result S) (Inv : S -> Prop).

Lemma loop_ok (l : list X) :
  (forall x s, In x l -> Inv s -> ok Inv (step x s)) ->
  forall acc, ok Inv acc -> ok Inv (loop step l acc).
Proof.
  induction l as [|x l IH]; intros Hstep acc Hacc; [exact Hacc|].
  simpl. apply IH.
  - intros y s Hy. apply Hstep. now right.
  - destruct acc; simpl in *; try assumption.
    apply Hstep; [now left | assumption].
Qed.

Lemma loop_returns (l : list X) :
  (forall x s, In x l -> Inv s -> returns Inv (step x s)) ->
  forall s, Inv s -> returns Inv (loop step l (Done s)).
Proof.
  induction l as [|x l IH]; intros Hstep s Hs.
  - now exists s.
  - simpl. destruct (Hstep x s (or_introl eq_refl) Hs) as [s' [E Hs']].
    rewrite E. apply IH; [|assumption].
    intros y t Hy. apply Hstep. now right.
Qed.
End ResultLoops.

(** ** The cycle search *)

Lemma closed_first_last (c : list string) :
  closed c -> exists n, hd_error c = Some n /\ last c EmptyString = n.
Proof.
  intros [n [body ->]]. exists n. split; [reflexivity|].
  change (n :: body ++ [n]) with ((n :: body) ++ [n]). apply last_last.
Qed.

Lemma index_In (x : string) (l : list string) :
  In x l -> exists i rest, index x l = Some i /\ skipn i l = x :: rest.
Proof.
  induction l as [|y l IH]; intros H; [destruct H|].
  simpl. destruct (String.eqb_spec y x) as [->|N].
  - exists 0, l. split; reflexivity.
  - destruct H as [H|H]; [contradiction|].
    destruct (IH H) as [i [rest [E1 E2]]].
    exists (S i), rest. rewrite E1. split; [reflexivity | exact E2].
Qed.

Lemma filter_length_mono {A : Type} (f g : A -> bool) (l : list A) :
  (forall x, f x = true -> g x = true) ->
  List.length (filter f l) <= List.length (filter g l).
Proof.
  intros H. induction l as [|a l IH]; simpl; [lia|].
  destruct (f a) eqn:Ef.
  - rewrite (H a Ef). simpl. lia.
  - destruct (g a); simpl; lia.
Qed.

Lemma filter_length_strict {A : Type} (f g : A -> bool) (l : list A) (a : A) :
  (forall x, f x = true -> g x = true) ->
  In a l -> f a = false -> g a = true ->
  List.length (filter f l) < List.length (filter g l).
Proof.
  intros H Ha Hf Hg. induction l as [|b l IH]; [destruct Ha|].
  simpl. destruct Ha as [->|Ha].
  - rewrite Hf, Hg. simpl.
    pose proof (filter_length_mono f g l H). lia.
  - specialize (IH Ha). destruct (f b) eqn:Ef.
    + rewrite (H b Ef). simpl. lia.
    + destruct (g b); simpl; lia.
Qed.

Section CycleSearchFacts.
Context {order : SetOrder}.
Variable e : Dict.t (list string).

Lemma unvisited_mono (v v' : list string) :
  incl v v' -> unvisited e v' <= unvisited e v.
Proof.
  intros H. apply filter_length_mono. intros x Hx.
  apply negb_true_iff in Hx. apply negb_true_iff.
  apply mem_nIn in Hx. apply mem_nIn. intros Hv. apply Hx, H, Hv.
Qed.

Lemma unvisited_add (x : string) (v : list string) :
  In x (graph_nodes_of e) -> ~ In x v ->
  unvisited e (set_add x v) < unvisited e v.
Proof.
  intros Hx Hv. apply filter_length_strict with (a := x); try assumption.
  - intros y Hy. apply negb_true_iff in Hy. apply negb_true_iff.
    apply mem_nIn in Hy. apply mem_nIn. intros H. apply Hy.
    apply set_add_In. now right.
  - apply negb_false_iff, mem_In, set_add_In. now left.
  - apply negb_true_iff, mem_nIn, Hv.
Qed.

Lemma unvisited_bound (v : list string) :
  unvisited e v <= List.length (graph_nodes_of e).
Proof. apply filter_length_le. Qed.

Lemma dict_get_In (k : string) (v : list string) :
  Dict.get e k = Some v -> In v (Dict.values e).
Proof.
  unfold Dict.values. induction e as [|[k' v'] d IH]; simpl; [discriminate|].
  destruct (k' =? k); [intros [= ->]; now left | intros H; right; auto].
Qed.

Lemma neighbors_nodes (node x : string) :
  In x (set_iter (neighbors e node)) -> In x (graph_nodes_of e).
Proof.
  rewrite set_iter_In. unfold neighbors, graph_nodes_of.
  destruct (Dict.get e node) as [v|] eqn:E; [|intros []].
  intros Hx. apply in_or_app. right.
  apply in_concat. exists v. split; [now apply dict_get_In with node | exact Hx].
Qed.

Lemma dfs_post_refl (st : dfs_state) : dfs_post (rec_stack st) st st.
Proof. split; [reflexivity | split; [apply incl_refl | tauto]]. Qed.

Lemma dfs_post_trans (p : list string) (s1 s2 s3 : dfs_state) :
  dfs_post p s1 s2 -> dfs_post p s2 s3 -> dfs_post p s1 s3.
Proof.
  intros [_ [V1 C1]] [S2 [V2 C2]].
  split; [exact S2 | split; [eapply incl_tran; eauto | tauto]].
Qed.

(** Whatever the fuel, a call that starts with the recursion stack equal
    to the path never raises and returns with the stack restored. *)
Lemma dfs_ok (fuel : nat) :
  forall node path st,
    rec_stack st = path ->
    ok (dfs_post path st) (dfs e fuel node path st).
Proof.
  induction fuel as [|fuel IH]; intros node path st Hstack; [exact I|].
  simpl. destruct (Str.mem node (rec_stack st)) eqn:Hon.
  - apply mem_In in Hon. rewrite Hstack in Hon.
    destruct (index_In _ _ Hon) as [i [rest [Ei Es]]].
    rewrite Ei, Es. subst path.
    match goal with |- ok _ (if ?b then _ else _) => destruct b end;
      [|apply dfs_post_refl].
    split; [reflexivity | split; [apply incl_refl|]].
    simpl. intros Hc. apply Forall_app. split; [assumption|].
    constructor; [|constructor]. now exists node, rest.
  - destruct (Str.mem node (visited st)) eqn:Hseen;
      [subst path; apply dfs_post_refl|].
    set (st1 := {| cycles := cycles st;
                   visited := set_add node (visited st);
                   rec_stack := rec_stack st ++ [node] |}).
    assert (L : ok (dfs_post (path ++ [node]) st1)
                   (loop (fun nb s => dfs e fuel nb (path ++ [node]) s)
                         (set_iter (neighbors e node)) (Done st1))).
    { apply loop_ok.
      - intros nb s _ Hs.
        assert (Hs' : rec_stack s = path ++ [node]) by apply Hs.
        specialize (IH nb (path ++ [node]) s Hs').
        destruct (dfs e fuel nb (path ++ [node]) s); simpl in *; auto.
        eapply dfs_post_trans; eauto.
      - simpl. rewrite <- Hstack. apply (dfs_post_refl st1). }
    unfold loop in L.
    match goal with |- ok _ (bind ?r _) => destruct r as [st2| |] end;
      simpl in *; auto.
    destruct L as [Hs [Hv Hc]]. rewrite Hs.
    destruct (path ++ [node]) eqn:E; [destruct path; discriminate|].
    rewrite <- E. split; simpl; [apply removelast_last|].
    split; [|exact Hc].
    intros x Hx. apply Hv. apply set_add_In. now right.
Qed.

(** With more fuel than there are unvisited node occurrences, the call
    returns. *)
Lemma dfs_returns (fuel : nat) :
  forall node path st,
    In node (graph_nodes_of e) ->
    rec_stack st = path ->
    unvisited e (visited st) < fuel ->
    returns (dfs_post path st) (dfs e fuel node path st).
Proof.
  induction fuel as [|fuel IH]; intros node path st Hnode Hstack Hfuel;
    [lia|].
  apply ok_returns; [now apply dfs_ok|].
  simpl. destruct (Str.mem node (rec_stack st)) eqn:Hon.
  - apply mem_In in Hon. rewrite Hstack in Hon.
    destruct (index_In _ _ Hon) as [i [rest [Ei Es]]]. rewrite Ei.
    match goal with |- (if ?b then _ else _) <> _ => destruct b end;
      discriminate.
  - destruct (Str.mem node (visited st)) eqn:Hseen; [discriminate|].
    apply mem_nIn in Hseen.
    set (st1 := {| cycles := cycles st;
                   visited := set_add node (visited st);
                   rec_stack := rec_stack st ++ [node] |}).
    destruct (@loop_returns _ _
                (fun nb s => dfs e fuel nb (path ++ [node]) s)
                (dfs_post (path ++ [node]) st1)
                (set_iter (neighbors e node))) with (s := st1)
      as [st2 [E [Hs _]]].
    + intros nb s Hnb Hs.
      destruct (IH nb (path ++ [node]) s) as [s' [E Hs']].
      * now apply neighbors_nodes with node.
      * apply Hs.
      * destruct Hs as [_ [Hv _]].
        pose proof (@unvisited_mono _ _ Hv).
        pose proof (@unvisited_add node (visited st) Hnode Hseen).
        simpl in *. lia.
      * exists s'. split; [exact E|]. eapply dfs_post_trans; eauto.
    + rewrite <- Hstack. apply (dfs_post_refl st1).
    + unfold loop in E. rewrite E. simpl. rewrite Hs.
      destruct (path ++ [node]) eqn:E';
        [destruct path; discriminate | discriminate].
Qed.

(** The search returns: it raises neither [ValueError] nor [IndexError]
    and the depth bound is never reached. Every chain it reports is
    closed and at most ten are reported. *)
Lemma find_circular_dependencies_returns :
  returns (fun cs => List.length cs <= 10 /\ Forall closed cs)
          (find_circular_dependencies e).
Proof.
  unfold find_circular_dependencies.
  pose (Inv := fun s : dfs_state =>
                 rec_stack s = [] /\ Forall closed (cycles s)).
  destruct (@loop_returns _ _
              (fun node s =>
                 if negb (Str.mem node (visited s))
                 then dfs e (dfs_fuel e) node [] s else Done s)
              Inv (Dict.keys e))
    with (s := {| cycles := []; visited := []; rec_stack := [] |})
    as [st [E [_ Hc]]].
  - intros node s Hnode [Hs Hc].
    destruct (negb (Str.mem node (visited s))); [|now exists s].
    destruct (@dfs_returns (dfs_fuel e) node [] s) as [s' [E [Hs' [_ Hc']]]];
      auto.
    + unfold graph_nodes_of. apply in_or_app. now left.
    + unfold dfs_fuel. pose proof (unvisited_bound (visited s)). lia.
    + exists s'. split; [exact E | split; auto].
  - split; [reflexivity | constructor].
  - unfold loop in E. rewrite E. cbn [bind].
    eexists. split; [reflexivity|]. split.
    + apply firstn_le_length.
    + rewrite <- (firstn_skipn 10 (cycles st)) in Hc.
      apply Forall_app in Hc. tauto.
Qed.
End CycleSearchFacts.

(** ** The search under a recursion limit *)

Section StuckLoops.
Variables (S X : Type) (step step' : X -> S -> result S).

Lemma loop_raised (l : list X) (e : exn) :
  loop step l (Raised e) = Raised e.
Proof. induction l as [|x l IH]; [reflexivity | exact IH]. Qed.

Lemma loop_out_of_fuel (l : list X) : loop step l OutOfFuel = OutOfFuel.
Proof. induction l as [|x l IH]; [reflexivity | exact IH]. Qed.

Lemma loop_agree (l : list X) :
  (forall x s s', In x l -> step x s = Done s' -> step' x s = Done s') ->
  forall s s', loop step l (Done s) = Done s' ->
               loop step' l (Done s) = Done s'.
Proof.
  induction l as [|x l IH]; intros H s s' E; [exact E|].
  cbn [loop fold_left bind] in *. fold (loop step l (step x s)) in E.
  fold (loop step' l (step' x s)).
  destruct (step x s) as [s1|ex|] eqn:E1.
  - rewrite (H x s s1 (or_introl eq_refl) E1). apply IH; [|exact E].
    intros y t t' Hy. apply H. now right.
  - rewrite loop_raised in E. discriminate.
  - rewrite loop_out_of_fuel in E. discriminate.
Qed.
End StuckLoops.

Section FuelFacts.
Context {order : SetOrder}.
Variable e : Dict.t (list string).

(** A call that returns with some fuel returns the same with more. *)
Lemma dfs_more_fuel (fuel : nat) :
  forall fuel' node path st st',
    fuel <= fuel' ->
    dfs e fuel node path st = Done st' ->
    dfs e fuel' node path st = Done st'.
Proof.
  induction fuel as [|fuel IH]; intros fuel' node path st st' Hle E;
    [discriminate|].
  destruct fuel' as [|fuel']; [lia|].
  cbn [dfs] in *.
  destruct (Str.mem node (rec_stack st)); [exact E|].
  destruct (Str.mem node (visited st)); [exact E|].
  match type of E with
  | bind ?r _ = _ => destruct r as [st2| |] eqn:E2; try discriminate
  end.
  change (loop (fun nb s => dfs e fuel nb (path ++ [node]) s)
               (set_iter (neighbors e node))
               (Done {| cycles := cycles st;
                        visited := set_add node (visited st);
                        rec_stack := rec_stack st ++ [node] |}) = Done st2)
    in E2.
  apply loop_agree
    with (step' := fun nb s => dfs e fuel' nb (path ++ [node]) s) in E2.
  - unfold loop in E2. rewrite E2. exact E.
  - intros nb s s' _ Hs. apply IH with (fuel' := fuel') in Hs; [exact Hs | lia].
Qed.

(** The loop over the keys, with [fuel] for every call of [dfs]. *)
Lemma search_more_fuel (fuel fuel' : nat) (keys : list string)
      (st st' : dfs_state) :
  fuel <= fuel' ->
  loop (fun node s => if negb (Str.mem node (visited s))
                      then dfs e fuel node [] s else Done s)
       keys (Done st) = Done st' ->
  loop (fun node s => if negb (Str.mem node (visited s))
                      then dfs e fuel' node [] s else Done s)
       keys (Done st) = Done st'.
Proof.
  intros Hle. apply loop_agree. intros node s s' _.
  destruct (negb (Str.mem node (visited s))); [|auto].
  now apply dfs_more_fuel.
Qed.

(** The search under a limit raises nothing but [RecursionError], and what
    it returns is what the search returns with the depth it needs. *)
Lemma run_search_cases (py : Interpreter) :
  (exists found, Run.find_circular_dependencies py e = Done found
                 /\ find_circular_dependencies e = Done found)
  \/ Run.find_circular_dependencies py e = Raised RecursionError.
Proof.
  unfold Run.find_circular_dependencies.
  match goal with
  | |- context [match ?r with Done _ => _ | Raised _ => _ | OutOfFuel => _ end] =>
      change r with
        (loop (fun node s => if negb (Str.mem node (visited s))
                             then dfs e (recursion_limit py) node [] s
                             else Done s)
              (Dict.keys e)
              (Done {| cycles := []; visited := []; rec_stack := [] |}))
  end.
  assert (Hok : ok (fun s => rec_stack s = [])
                   (loop (fun node s =>
                            if negb (Str.mem node (visited s))
                            then dfs e (recursion_limit py) node [] s
                            else Done s)
                         (Dict.keys e)
                         (Done {| cycles := []; visited := [];
                                  rec_stack := [] |}))).
  { apply loop_ok; [|reflexivity].
    intros node s _ Hs. destruct (negb (Str.mem node (visited s))); [|exact Hs].
    pose proof (dfs_ok e (recursion_limit py) node s Hs) as H.
    destruct (dfs e (recursion_limit py) node [] s); simpl in *; auto.
    apply H. }
  destruct (loop _ _ _) as [st| |] eqn:E; simpl in Hok;
    [|contradiction | now right].
  left. exists (firstn 10 (cycles st)). split; [reflexivity|].
  destruct (find_circular_dependencies_returns e) as [found [Ef _]].
  pose proof Ef as Ef'. unfold find_circular_dependencies in Ef'.
  match type of Ef' with
  | bind ?r _ = _ =>
      change r with
        (loop (fun node s => if negb (Str.mem node (visited s))
                             then dfs e (dfs_fuel e) node [] s
                             else Done s)
              (Dict.keys e)
              (Done {| cycles := []; visited := []; rec_stack := [] |}))
        in Ef';
      destruct (loop (fun node s => if negb (Str.mem node (visited s))
                             then dfs e (dfs_fuel e) node [] s
                             else Done s)
              (Dict.keys e)
              (Done {| cycles := []; visited := []; rec_stack := [] |}))
        as [st0| |] eqn:E0; try discriminate
  end.
  cbn [bind] in Ef'.
  apply search_more_fuel
    with (fuel' := Nat.max (recursion_limit py) (dfs_fuel e)) in E; [|lia].
  apply search_more_fuel
    with (fuel' := Nat.max (recursion_limit py) (dfs_fuel e)) in E0; [|lia].
  rewrite E in E0. injection E0 as <-. rewrite Ef. now symmetry.
Qed.

End FuelFacts.

(** ** The scan *)

Lemma In_firstn_In {A : Type} (n : nat) (l : list A) (x : A) :
  In x (firstn n l) -> In x l.
Proof.
  intros H. rewrite <- (firstn_skipn n l). apply in_or_app. now left.
Qed.

Lemma firstn_short {A : Type} (n : nat) (l : list A) :
  List.length (firstn n l) < n -> firstn n l = l.
Proof.
  intros H. apply firstn_all2. rewrite length_firstn in H. lia.
Qed.

Lemma fold_left_inv {A B : Type} (f : A -> B -> A) (P : A -> Prop) (l : list B) :
  (forall a x, In x l -> P a -> P (f a x)) ->
  forall a, P a -> P (fold_left f l a).
Proof.
  induction l as [|x l IH]; intros Hf a Ha; [exact Ha|].
  simpl. apply IH.
  - intros b y Hy. apply Hf. now right.
  - apply Hf; [now left | exact Ha].
Qed.

Lemma alter_In {V : Type} (f : V -> V) (dflt : V) (k : string)
      (d : Dict.t V) (k' : string) (v' : V) :
  In (k', v') (Dict.alter f dflt k d) ->
  In (k', v') d
  \/ (k' = k /\ exists old, v' = f old /\ (old = dflt \/ In (k, old) d)).
Proof.
  induction d as [|[k0 v0] d IH]; simpl.
  - intros [[= <- <-]|[]]. right. split; [reflexivity|]. exists dflt. auto.
  - destruct (String.eqb_spec k0 k) as [->|N]; simpl.
    + intros [[= <- <-]|H]; [|auto].
      right. split; [reflexivity|]. exists v0. auto.
    + intros [H|H]; [auto|].
      destruct (IH H) as [H'|[-> [old [-> [->|H']]]]]; [auto| |].
      * right. split; [reflexivity|]. exists dflt. auto.
      * right. split; [reflexivity|]. exists old. auto.
Qed.

Lemma dict_mem_In {V : Type} (k : string) (d : Dict.t V) :
  Dict.mem k d = true -> exists v, In (k, v) d.
Proof.
  unfold Dict.mem. rewrite mem_In, in_map_iff.
  intros [[k' v] [E H]]. simpl in E. subst. now exists v.
Qed.

Lemma record_import_inv (include_ext : bool)
      (file_lang file_path relative_path : string)
      (acc : scan_state) (imp : ImportRecord) :
  scan_inv include_ext acc /\ In relative_path (all_nodes acc) ->
  scan_inv include_ext
           (record_import include_ext file_lang file_path relative_path acc imp)
  /\ In relative_path
        (all_nodes
           (record_import include_ext file_lang file_path relative_path acc imp)).
Proof.
  intros [[He Hx] Hrel]. destruct imp as [[module import_type] symbols].
  assert (Hsame : scan_inv include_ext acc /\ In relative_path (all_nodes acc))
    by (split; [split|]; assumption).
  unfold record_import. destruct (module =? EmptyString); [exact Hsame|].
  destruct (is_external_dependency module file_lang file_path).
  - destruct include_ext eqn:Ei; [|exact Hsame].
    split; [split; [exact He | discriminate] | exact Hrel].
  - split; [split; [|exact Hx] | simpl; apply set_add_In; now right].
    intros k ts H. simpl in *. apply alter_In in H.
    destruct H as [H|[-> [old [-> Hold]]]].
    + destruct (He k ts H) as [H1 [H2 H3]].
      split; [exact H1 | split; [apply set_add_In; now right|]].
      intros t Ht. apply set_add_In. right. now apply H3.
    + split; [|split].
      * unfold set_add. destruct (Str.mem module old) eqn:E.
        -- apply mem_In in E. intros ->. destruct E.
        -- destruct old; discriminate.
      * apply set_add_In. now right.
      * intros t Ht. apply set_add_In. apply set_add_In in Ht.
        destruct Ht as [->|Ht]; [now left | right].
        destruct Hold as [->|Hold]; [destruct Ht|].
        destruct (He _ _ Hold) as [_ [_ H3]]. now apply H3.
Qed.

Section ScanFacts.
Context {order : SetOrder}.
Variable h : Host.

Lemma parse_file_imports_returns (file_path lang : string) :
  exists imports, parse_file_imports h file_path lang = Done imports.
Proof.
  unfold parse_file_imports, parse_python_imports.
  destruct (read_text h file_path) as [code|]; [|now eexists].
  destruct (lang =? "python").
  - destruct (ast_parse h code); now eexists.
  - destruct ((lang =? "javascript") || (lang =? "typescript"));
      [now eexists|].
    destruct (lang =? "java"); [now eexists|].
    destruct (lang =? "go"); now eexists.
Qed.

Lemma scan_file_returns (inputs : ExecuteInputs) (acc : scan_state)
      (file_path : string) :
  scan_inv (include_external inputs) acc ->
  returns (scan_inv (include_external inputs))
          (scan_file h inputs acc file_path).
Proof.
  intros [He Hx]. unfold scan_file.
  destruct (parse_file_imports_returns file_path
              (file_language h inputs file_path)) as [imports ->].
  cbn [bind]. eexists. split; [reflexivity|].
  apply proj1 with (B := In (relative_path_of h inputs file_path)
                            (all_nodes
                               (fold_left
                                  (record_import (include_external inputs)
                                     (file_language h inputs file_path)
                                     file_path
                                     (relative_path_of h inputs file_path))
                                  imports
                                  {| internal_deps := internal_deps acc;
                                     external_deps_map := external_deps_map acc;
                                     edges := edges acc;
                                     all_nodes :=
                                       set_add
                                         (relative_path_of h inputs file_path)
                                         (all_nodes acc);
                                     external_nodes := external_nodes acc |}))).
  apply fold_left_inv with
    (P := fun s => scan_inv (include_external inputs) s
                   /\ In (relative_path_of h inputs file_path) (all_nodes s)).
  - intros a x _ Ha. now apply record_import_inv.
  - split; [split; [|exact Hx] | simpl; apply set_add_In; now left].
    intros k ts H. simpl in *. destruct (He k ts H) as [H1 [H2 H3]].
    split; [exact H1 | split; [apply set_add_In; now right|]].
    intros t Ht. apply set_add_In. right. now apply H3.
Qed.

Lemma scan_files_returns (inputs : ExecuteInputs) (files : list string) :
  returns (scan_inv (include_external inputs)) (scan_files h inputs files).
Proof.
  unfold scan_files.
  apply (@loop_returns _ _ (fun file_path st => scan_file h inputs st file_path)).
  - intros x s _ Hs. now apply scan_file_returns.
  - split; [intros k ts [] | reflexivity].
Qed.

(** The three ways [map_dependencies] returns. It always returns. *)
Lemma map_dependencies_cases (inputs : ExecuteInputs) :
  let files := get_source_files h (source_path inputs) (language inputs) in
  (path_exists h (source_path inputs) = false
   /\ map_dependencies h inputs
      = Done (MapOutputs.with_summary
                ("Path not found: " ++ source_path inputs)%string))
  \/ (path_exists h (source_path inputs) = true /\ files = []
      /\ map_dependencies h inputs
         = Done (MapOutputs.with_summary
                   ("No source files found in: "
                      ++ source_path inputs)%string))
  \/ (path_exists h (source_path inputs) = true /\ files <> []
      /\ exists st circular,
          scan_files h inputs files = Done st
          /\ scan_inv (include_external inputs) st
          /\ find_circular_dependencies (edges st) = Done circular
          /\ List.length circular <= 10 /\ Forall closed circular
          /\ map_dependencies h inputs = Done (assemble files st circular)).
Proof.
  intros files. unfold map_dependencies.
  destruct (path_exists h (source_path inputs)); [|now left].
  right. fold files. destruct files as [|f fs] eqn:Ef; [now left|].
  right. split; [reflexivity|]. split; [discriminate|].
  destruct (scan_files_returns inputs (f :: fs)) as [st [Es Hs]].
  destruct (find_circular_dependencies_returns (edges st))
    as [circular [Ec [Hl Hc]]].
  exists st, circular. rewrite Es. cbn [bind]. rewrite Ec. cbn [bind].
  split; [reflexivity|]. split; [exact Hs|]. split; [reflexivity|].
  split; [exact Hl|]. split; [exact Hc | reflexivity].
Qed.
End ScanFacts.

(** ** Runs that return *)

Section ReturningRuns.
Context {order : SetOrder}.
Variables (py : Interpreter) (h : Host).

Lemma run_parse_file_imports (file_path lang : string)
      (imports : list ImportRecord) :
  Run.parse_file_imports py h file_path lang = Done imports ->
  parse_file_imports h file_path lang = Done imports.
Proof.
  unfold Run.parse_file_imports, parse_file_imports.
  destruct (read_text h file_path) as [code|]; [|auto].
  destruct (lang =? "python"); [|auto].
  unfold Run.parse_python_imports, parse_python_imports.
  destruct (ast_parse h code); [|auto].
  destruct (parse_raises py code); [discriminate | auto].
Qed.

Lemma run_scan_files (inputs : ExecuteInputs) (files : list string)
      (st : scan_state) :
  Run.scan_files py h inputs files = Done st ->
  scan_files h inputs files = Done st.
Proof.
  unfold Run.scan_files, scan_files.
  apply (@loop_agree _ _
           (fun f s => Run.scan_file py h inputs s f)
           (fun f s => scan_file h inputs s f)).
  intros f s s' _. unfold Run.scan_file, scan_file.
  destruct (Run.parse_file_imports py h f (file_language h inputs f))
    as [imports| |] eqn:E; try discriminate.
  now rewrite (run_parse_file_imports _ _ E).
Qed.

(** A run that returns gives the report of the statements alone: the
    exceptions decide whether a report is returned, not what it holds. *)
Lemma run_map_dependencies (inputs : ExecuteInputs) (out : MapOutputs.t) :
  Run.map_dependencies py h inputs = Done out ->
  map_dependencies h inputs = Done out.
Proof.
  unfold Run.map_dependencies, map_dependencies.
  destruct (exists_raises py (source_path inputs)); [discriminate|].
  destruct (negb (path_exists h (source_path inputs))); [auto|].
  destruct (get_source_files h (source_path inputs) (language inputs))
    as [|f fs]; [auto|].
  destruct (Run.scan_files py h inputs (f :: fs)) as [st| |] eqn:Es;
    try discriminate.
  rewrite (run_scan_files _ _ Es). cbn [bind].
  destruct (run_search_cases (edges st) py) as [[found [E' E]]|E'];
    rewrite E'; [|discriminate].
  rewrite E. auto.
Qed.
End ReturningRuns.

(* ====================================================================== *)
(** * The classifier *)
(* ====================================================================== *)

(** C1, as the claim states it, fails at the standard-library name [os]:
    the target is not relative and the classifier answers internal. *)
Lemma python_stdlib_target_not_external :
  Str.startswith "os" "." = false /\
  Str.mem (Str.first_field "." "os") PYTHON_STDLIB = true /\
  is_external_dependency "os" "python" EmptyString = false.
Proof. repeat split; reflexivity. Qed.

(** C1 (amended): for a Python target that does not begin with a dot, the
    classifier answers external exactly when the root token (the text before
    the first dot) is outside the fixed standard-library set: a
    standard-library root is answered internal, any other root external. *)
Theorem python_target_classification :
  forall (module source_file : string),
    Str.startswith module "." = false ->
    is_external_dependency module "python" source_file
      = negb (Str.mem (Str.first_field "." module) PYTHON_STDLIB)
    /\ (In (Str.first_field "." module) PYTHON_STDLIB ->
        is_external_dependency module "python" source_file = false)
    /\ (~ In (Str.first_field "." module) PYTHON_STDLIB ->
        is_external_dependency module "python" source_file = true).
Proof.
  intros module source_file Hrel.
  assert (E : is_external_dependency module "python" source_file
              = negb (Str.mem (Str.first_field "." module) PYTHON_STDLIB)).
  { unfold is_external_dependency. rewrite Hrel. reflexivity. }
  split; [exact E | split; intros H; rewrite E].
  - apply mem_In in H. now rewrite H.
  - apply mem_nIn in H. now rewrite H.
Qed.

Lemma python_target_classification_witness :
  is_external_dependency "requests.adapters" "python" "app.py" = true
  /\ is_external_dependency "os.path" "python" "app.py" = false.
Proof.
  split.
  - destruct (@python_target_classification "requests.adapters" "app.py" eq_refl)
      as [E _].
    rewrite E. reflexivity.
  - destruct (@python_target_classification "os.path" "app.py" eq_refl)
      as [E _].
    rewrite E. reflexivity.
Defined.

(** C4, as the claim states it, fails at [fmt]: no slash, no dot, and the
    classifier answers internal. *)
Lemma go_plain_target_not_external :
  Str.contains "/" "fmt" = false /\ Str.contains "." "fmt" = false /\
  is_external_dependency "fmt" "go" EmptyString = false.
Proof. repeat split; reflexivity. Qed.

Lemma contains_dot_startswith (module : string) :
  Str.contains "." module = false -> Str.startswith module "." = false.
Proof.
  destruct module as [|c rest]; [reflexivity|].
  unfold Str.startswith.
  change (String.prefix "." (String c rest))
    with (if ascii_dec "."%char c then String.prefix EmptyString rest else false).
  change (Str.contains "." (String c rest))
    with (Ascii.eqb c "." || Str.contains "." rest).
  destruct (ascii_dec "."%char c) as [<-|_]; [|reflexivity].
  rewrite Ascii.eqb_refl. discriminate.
Qed.

(** C4 (amended): a Go target with no slash and no dot is treated as a
    standard-library import, and the classifier answers internal (not
    external) for it. *)
Theorem go_plain_target_classification :
  forall (module source_file : string),
    Str.contains "/" module = false ->
    Str.contains "." module = false ->
    is_external_dependency module "go" source_file = false.
Proof.
  intros module source_file Hslash Hdot.
  unfold is_external_dependency.
  rewrite (contains_dot_startswith module Hdot). simpl.
  now rewrite Hdot, Hslash.
Qed.

Lemma go_plain_target_classification_witness :
  is_external_dependency "net" "go" "main.go" = false.
Proof.
  apply (@go_plain_target_classification "net" "main.go"); reflexivity.
Defined.

(* ====================================================================== *)
(** * The Python extractor *)
(* ====================================================================== *)

(** C9: when [ast.parse] raises [SyntaxError] on a text, the extractor
    returns, without raising, exactly the records of the regex strategy on
    that text; so does the reading of a file that holds the text; and the
    scan of such a file, in a request that reads it as Python, goes on: it
    returns the accumulators with the node of the file and the regex
    records added. *)
Theorem python_syntax_error_falls_back_to_regex :
  forall (h : Host) (code : string),
    ast_parse h code = SyntaxError ->
    parse_python_imports h code = Done (parse_python_imports_regex h code)
    /\ (forall file_path,
           read_text h file_path = Some code ->
           parse_file_imports h file_path "python"
           = Done (parse_python_imports_regex h code))
    /\ (forall (inputs : ExecuteInputs) (acc : scan_state) (file_path : string),
           read_text h file_path = Some code ->
           file_language h inputs file_path = "python" ->
           scan_file h inputs acc file_path
           = Done (fold_left
                     (record_import (include_external inputs) "python"
                                    file_path
                                    (relative_path_of h inputs file_path))
                     (parse_python_imports_regex h code)
                     (with_file_node (relative_path_of h inputs file_path)
                                     acc))).
Proof.
  intros h code Hfail.
  assert (E : parse_python_imports h code
              = Done (parse_python_imports_regex h code)).
  { unfold parse_python_imports. now rewrite Hfail. }
  assert (F : forall file_path,
             read_text h file_path = Some code ->
             parse_file_imports h file_path "python"
             = Done (parse_python_imports_regex h code)).
  { intros file_path Hread. unfold parse_file_imports.
    rewrite Hread. simpl. exact E. }
  split; [exact E | split; [exact F|]].
  intros inputs acc file_path Hread Hlang.
  unfold scan_file. rewrite Hlang, (F file_path Hread). reflexivity.
Qed.

Lemma python_syntax_error_falls_back_to_regex_witness :
  parse_python_imports (Memory.host "proj" Memory.broken_python)
                       Memory.broken_text
  = Done [ (("os" ++ Memory.newline ++ "def broken")%string, "direct",
            [("os" ++ Memory.newline ++ "def broken")%string]) ]
  /\ exists st,
       scan_file (Memory.host "proj" Memory.broken_python)
                 (Memory.inputs "proj" true) initial_scan_state
                 "proj/broken.py"
       = Done st
       /\ all_nodes st = ["broken.py"].
Proof.
  destruct (@python_syntax_error_falls_back_to_regex
              (Memory.host "proj" Memory.broken_python)
              Memory.broken_text eq_refl) as [E [_ S]].
  split; [rewrite E; reflexivity|].
  eexists. split.
  - apply (S (Memory.inputs "proj" true) initial_scan_state "proj/broken.py");
      reflexivity.
  - vm_compute. reflexivity.
Defined.

(* ====================================================================== *)
(** * The cycle search *)
(* ====================================================================== *)




(** C5: the cycle search returns at most ten chains, and every chain it
    returns begins and ends with the same node id; the same holds of the
    [circular_dependencies] of every report. *)
Theorem circular_dependencies_bounded_and_closed :
  (forall (order : SetOrder) (e : Dict.t (list string)),
      exists found,
        find_circular_dependencies e = Done found
        /\ 0 <= List.length found <= 10
        /\ forall c, In c found ->
             exists n, hd_error c = Some n /\ last c EmptyString = n)
  /\ (forall (order : SetOrder) (h : Host) (inputs : ExecuteInputs),
      exists out,
        map_dependencies h inputs = Done out
        /\ 0 <= List.length (MapOutputs.circular_dependencies out) <= 10
        /\ forall c, In c (MapOutputs.circular_dependencies out) ->
             exists n, hd_error c = Some n /\ last c EmptyString = n).
Proof.
  split.
  - intros order e.
    destruct (find_circular_dependencies_returns e) as [found [E [Hl Hc]]].
    exists found. split; [exact E | split; [lia|]].
    intros c Hin. apply closed_first_last.
    rewrite Forall_forall in Hc. now apply Hc.
  - intros order h inputs.
    destruct (map_dependencies_cases h inputs)
      as [[_ H]|[[_ [_ H]]|[_ [_ [st [circular [_ [_ [_ [Hl [Hc H]]]]]]]]]]];
      eexists; (split; [exact H|]); simpl.
    + split; [lia | intros c []].
    + split; [lia | intros c []].
    + split; [lia|]. intros c Hin. apply closed_first_last.
      rewrite Forall_forall in Hc. now apply Hc.
Qed.

(* ====================================================================== *)
(** * The report *)
(* ====================================================================== *)

(** ** Graph helpers *)

Lemma fold_set_add_In (l acc : list string) (t : string) :
  In t (fold_left (fun a x => set_add x a) l acc) <-> In t acc \/ In t l.
Proof.
  revert acc. induction l as [|x l IH]; intros acc; simpl; [tauto|].
  rewrite IH, set_add_In. intuition congruence.
Qed.

Section GraphFacts.
Context {order : SetOrder}.

Lemma edge_targets_In (e : Dict.t (list string)) (ts : list string) (t : string) :
  In ts (Dict.values e) -> In t ts -> In t (edge_targets e).
Proof.
  unfold edge_targets. generalize (@nil string) as acc.
  induction (Dict.values e) as [|v vs IH]; intros acc Hts Ht; [destruct Hts|].
  simpl. destruct Hts as [->|Hts]; [|now apply IH].
  apply fold_left_inv with
    (P := fun a => In t a)
    (f := fun targets t_set =>
            fold_left (fun acc t => set_add t acc) (set_iter t_set) targets).
  - intros a x _ Ha. apply fold_set_add_In. now left.
  - apply fold_set_add_In. right. now apply set_iter_In.
Qed.

Lemma graph_edges_In (e : Dict.t (list string)) (edge : GraphEdge.t) :
  In edge (build_graph_edges e) ->
  exists ts, In (GraphEdge.source edge, ts) e /\ In (GraphEdge.target edge) ts.
Proof.
  unfold build_graph_edges. rewrite in_flat_map.
  intros [[k ts] [Hk Hin]]. apply in_map_iff in Hin.
  destruct Hin as [t [<- Ht]]. simpl. exists ts.
  split; [exact Hk | now apply set_iter_In].
Qed.

Lemma graph_edges_intro (e : Dict.t (list string)) (k t : string)
      (ts : list string) :
  In (k, ts) e -> In t ts ->
  In {| GraphEdge.source := k; GraphEdge.target := t; GraphEdge.weight := 1 |}
     (build_graph_edges e).
Proof.
  intros Hk Ht. unfold build_graph_edges. apply in_flat_map.
  exists (k, ts). split; [exact Hk|]. apply in_map_iff.
  exists t. split; [reflexivity | now apply set_iter_In].
Qed.

Lemma graph_edges_target (e : Dict.t (list string)) (edge : GraphEdge.t) :
  In edge (build_graph_edges e) -> In (GraphEdge.target edge) (edge_targets e).
Proof.
  intros H. destruct (graph_edges_In e edge H) as [ts [Hk Ht]].
  apply edge_targets_In with ts; [|exact Ht].
  unfold Dict.values. apply in_map_iff. now exists (GraphEdge.source edge, ts).
Qed.

Lemma internal_node_intro (st : scan_state) (n : string) :
  In n (all_nodes st) ->
  In {| GraphNode.id := n; GraphNode.type := "internal"; GraphNode.path := n |}
     (build_graph_nodes st).
Proof.
  intros H. unfold build_graph_nodes. apply in_or_app. left.
  apply in_map_iff. exists n. split; [reflexivity | now apply set_iter_In].
Qed.
End GraphFacts.

(** ** Degenerate reports *)




(** ** Entry points *)

(** C6: every reported entry point is an internal node of the graph the
    scan built, the source of at least one of its edges and the target of
    none of them, hence of none of the returned edges; and at most twenty
    entry points are returned. *)
Theorem entry_points_depend_and_are_not_depended_on :
  forall (order : SetOrder) (h : Host) (inputs : ExecuteInputs),
  exists out,
    map_dependencies h inputs = Done out
    /\ List.length (MapOutputs.entry_points out) <= 20
    /\ forall n, In n (MapOutputs.entry_points out) ->
         exists st,
           scan_files h inputs
             (get_source_files h (source_path inputs) (language inputs))
           = Done st
           /\ In {| GraphNode.id := n; GraphNode.type := "internal";
                    GraphNode.path := n |} (build_graph_nodes st)
           /\ (exists t,
                  In {| GraphEdge.source := n; GraphEdge.target := t;
                        GraphEdge.weight := 1 |}
                     (build_graph_edges (edges st)))
           /\ (forall edge, In edge (build_graph_edges (edges st)) ->
                            GraphEdge.target edge <> n)
           /\ (forall edge,
                  In edge (DependencyGraph.edges
                             (MapOutputs.dependency_graph out)) ->
                  GraphEdge.target edge <> n).
Proof.
  intros order h inputs.
  destruct (map_dependencies_cases h inputs)
    as [[_ H]|[[_ [_ H]]|[_ [_ [st [circular [Es [[He _] [_ [_ [_ H]]]]]]]]]]];
    eexists; (split; [exact H|]).
  - simpl. split; [lia | intros n []].
  - simpl. split; [lia | intros n []].
  - unfold assemble.
    cbn [MapOutputs.entry_points MapOutputs.dependency_graph
         DependencyGraph.edges].
    split; [apply firstn_le_length|].
    intros n Hn. apply In_firstn_In in Hn.
    unfold find_entry_points in Hn. apply filter_In in Hn.
    destruct Hn as [Hnode Hn]. apply andb_true_iff in Hn.
    destruct Hn as [Hnot Hkey].
    apply negb_true_iff, mem_nIn in Hnot.
    apply (proj1 (set_iter_In _ _)) in Hnode.
    apply dict_mem_In in Hkey. destruct Hkey as [ts Hts].
    assert (Hincoming : forall edge, In edge (build_graph_edges (edges st)) ->
                                     GraphEdge.target edge <> n).
    { intros edge Hedge <-. apply Hnot. now apply graph_edges_target. }
    exists st. split; [exact Es|].
    split; [now apply internal_node_intro|].
    split; [|split; [exact Hincoming|]].
    + destruct (He n ts Hts) as [Hne _].
      destruct ts as [|t ts']; [now contradiction Hne|].
      exists t. apply graph_edges_intro with (t :: ts'); [exact Hts | now left].
    + intros edge Hedge. apply Hincoming. now apply In_firstn_In in Hedge.
Qed.

(** ** Edges and nodes *)




(** ** Set and filter helpers *)

Lemma set_iter_nil {order : SetOrder} : set_iter [] = [].
Proof. apply Permutation_nil, Permutation_sym, set_iter_perm. Qed.

Lemma filter_none {A : Type} (f : A -> bool) (l : list A) :
  (forall x, In x l -> f x = false) -> filter f l = [].
Proof.
  induction l as [|a l IH]; intros H; [reflexivity|].
  simpl. rewrite (H a (or_introl eq_refl)). apply IH.
  intros x Hx. apply H. now right.
Qed.

(* ====================================================================== *)
(** * Further properties *)
(* ====================================================================== *)

(** ** Reported chains are cycles of the graph *)

Lemma walk_tail (e : Dict.t (list string)) (x : string) (l : list string) :
  walk e (x :: l) -> walk e l.
Proof. destruct l as [|y l]; simpl; tauto. Qed.

Lemma walk_suffix (e : Dict.t (list string)) (l1 l2 : list string) :
  walk e (l1 ++ l2) -> walk e l2.
Proof.
  induction l1 as [|x l1 IH]; intros H; [exact H|].
  apply IH. now apply walk_tail with x.
Qed.

Lemma walk_snoc (e : Dict.t (list string)) (l : list string) (x y : string) :
  walk e (l ++ [x]) -> In y (neighbors e x) -> walk e ((l ++ [x]) ++ [y]).
Proof.
  induction l as [|a l IH]; intros Hw Hy; [simpl; tauto|].
  simpl in *. destruct (l ++ [x]) as [|b r] eqn:E;
    [destruct l; discriminate|].
  simpl. split; [tauto|]. apply IH; tauto.
Qed.

Lemma cycle_mem_In (c : list string) (cs : list (list string)) :
  cycle_mem c cs = true <-> In c cs.
Proof.
  unfold cycle_mem. rewrite existsb_exists. split.
  - intros [c' [Hin H]]. destruct (list_eq_dec string_dec c' c);
      [now subst | discriminate].
  - intros H. exists c. split; [exact H|].
    destruct (list_eq_dec string_dec c c); [reflexivity | contradiction].
Qed.

Section CycleQuality.
Context {order : SetOrder}.
Variable e : Dict.t (list string).

Lemma dfs_chains (fuel : nat) :
  forall node path st,
    rec_stack st = path -> NoDup path -> walk e (path ++ [node]) ->
    chains_inv e st ->
    ok (chains_inv e) (dfs e fuel node path st).
Proof.
  induction fuel as [|fuel IH]; intros node path st Hstack Hnd Hwalk Hinv;
    [exact I|].
  simpl. destruct (Str.mem node (rec_stack st)) eqn:Hon.
  - apply mem_In in Hon. rewrite Hstack in Hon.
    destruct (index_In _ _ Hon) as [i [rest [Ei Es]]]. rewrite Ei, Es.
    destruct ((1 <? List.length ((node :: rest) ++ [node]))%nat
              && negb (cycle_mem ((node :: rest) ++ [node]) (cycles st)))
      eqn:Hnew; [|exact Hinv].
    apply andb_true_iff in Hnew. destruct Hnew as [_ Hnew].
    apply negb_true_iff in Hnew.
    assert (Hfresh : ~ In ((node :: rest) ++ [node]) (cycles st)).
    { intros H. apply cycle_mem_In in H. congruence. }
    assert (Hsplit : path = firstn i path ++ node :: rest)
      by now rewrite <- Es, firstn_skipn.
    destruct Hinv as [Hw [Hs Hn]]. simpl. split; [|split].
    + apply Forall_app. split; [exact Hw|]. constructor; [|constructor].
      apply walk_suffix with (firstn i path).
      rewrite Hsplit in Hwalk. now rewrite <- app_assoc in Hwalk.
    + apply Forall_app. split; [exact Hs|]. constructor; [|constructor].
      exists node, rest. split; [reflexivity|].
      rewrite Hsplit in Hnd. now apply NoDup_app_remove_l in Hnd.
    + apply NoDup_app; [exact Hn | repeat constructor; intros [] |].
      intros c Hc [<-|[]]. contradiction.
  - destruct (Str.mem node (visited st)) eqn:Hseen; [exact Hinv|].
    apply mem_nIn in Hon. rewrite Hstack in Hon.
    set (st1 := {| cycles := cycles st;
                   visited := set_add node (visited st);
                   rec_stack := rec_stack st ++ [node] |}).
    assert (L : ok (fun s => rec_stack s = path ++ [node] /\ chains_inv e s)
                   (loop (fun nb s => dfs e fuel nb (path ++ [node]) s)
                         (set_iter (neighbors e node)) (Done st1))).
    { apply loop_ok.
      - intros nb s Hnb [Hs Hc].
        apply (proj1 (set_iter_In _ _)) in Hnb.
        pose proof (dfs_ok e fuel nb s Hs) as Hok.
        assert (Hch : ok (chains_inv e) (dfs e fuel nb (path ++ [node]) s)).
        { apply IH; auto.
          - apply NoDup_app; [exact Hnd | repeat constructor; intros [] |].
            intros x Hx [<-|[]]. contradiction.
          - now apply walk_snoc. }
        destruct (dfs e fuel nb (path ++ [node]) s); simpl in *; auto.
        split; [apply Hok | exact Hch].
      - simpl. split; [now rewrite Hstack | exact Hinv]. }
    unfold loop in L.
    match goal with |- ok _ (bind ?r _) => destruct r as [st2| |] end;
      simpl in *; auto.
    destruct L as [Hs Hc]. rewrite Hs.
    destruct (path ++ [node]) eqn:E; [destruct path; discriminate|].
    exact Hc.
Qed.

Lemma find_circular_dependencies_chains :
  returns (fun cs => Forall (walk e) cs /\ Forall simple_cycle cs /\ NoDup cs)
          (find_circular_dependencies e).
Proof.
  destruct (find_circular_dependencies_returns e) as [found [E _]].
  exists found. split; [exact E|].
  unfold find_circular_dependencies in E.
  assert (L : ok (fun s => rec_stack s = [] /\ chains_inv e s)
                 (loop (fun node s =>
                          if negb (Str.mem node (visited s))
                          then dfs e (dfs_fuel e) node [] s else Done s)
                       (Dict.keys e)
                       (Done {| cycles := []; visited := []; rec_stack := [] |}))).
  { apply loop_ok.
    - intros node s _ [Hs Hc].
      destruct (negb (Str.mem node (visited s))); [|now split].
      pose proof (dfs_ok e (dfs_fuel e) node s Hs) as Hok.
      assert (Hch : ok (chains_inv e) (dfs e (dfs_fuel e) node [] s)).
      { apply dfs_chains; auto; [constructor | exact I]. }
      destruct (dfs e (dfs_fuel e) node [] s); simpl in *; auto.
      split; [apply Hok | exact Hch].
    - simpl. split; [reflexivity|].
      split; [constructor | split; constructor]. }
  unfold loop in L.
  match type of E with bind ?r _ = _ => destruct r as [st| |] end;
    simpl in E; try discriminate.
  injection E as <-. destruct L as [_ [Hw [Hs Hn]]].
  rewrite <- (firstn_skipn 10 (cycles st)) in Hw, Hs, Hn.
  apply Forall_app in Hw. apply Forall_app in Hs.
  apply NoDup_app_remove_r in Hn. tauto.
Qed.
End CycleQuality.

(** ** A graph with a cycle gets a report *)

Section IndexedLoops.
Variables (S X : Type) (step : X -> S -> result S).
Variable Inv : list X -> S -> Prop.

Lemma loop_ok_from (l done : list X) :
  (forall d x s, Inv d s -> In x l -> ok (Inv (d ++ [x])) (step x s)) ->
  forall acc, ok (Inv done) acc -> ok (Inv (done ++ l)) (loop step l acc).
Proof.
  revert done. induction l as [|x l IH]; intros done Hstep acc Hacc.
  - now rewrite app_nil_r.
  - simpl. change (done ++ x :: l) with (done ++ [x] ++ l).
    rewrite app_assoc. apply IH.
    + intros d y s Hd Hy. apply Hstep; [exact Hd | now right].
    + destruct acc; simpl in *; try assumption.
      apply Hstep; [exact Hacc | now left].
Qed.
End IndexedLoops.

Lemma reach_finished (e : Dict.t (list string)) (st : dfs_state) (x y : string) :
  (forall b z, finished st b -> In z (neighbors e b) -> finished st z) ->
  reach e x y -> finished st x -> finished st y.
Proof.
  intros Hclosed Hreach. induction Hreach as [x y H|x y z H _ IH]; intros Hx.
  - now apply Hclosed with x.
  - apply IH. now apply Hclosed with x.
Qed.

Lemma neighbors_key (e : Dict.t (list string)) (x y : string) :
  In y (neighbors e x) -> In x (Dict.keys e).
Proof.
  unfold neighbors, Dict.keys.
  induction e as [|[k v] d IH]; simpl; [intros []|].
  destruct (String.eqb_spec k x) as [->|N]; [now left | right; auto].
Qed.

Lemma walk_reach (e : Dict.t (list string)) (body : list string) (x y : string) :
  walk e (x :: body ++ [y]) -> reach e x y.
Proof.
  revert x. induction body as [|b body IH]; intros x H; simpl in H.
  - apply reach_edge. tauto.
  - apply reach_more with b; [tauto|]. apply IH. tauto.
Qed.

Section Completeness.
Context {order : SetOrder}.
Variable e : Dict.t (list string).

Lemma dfs_quiet (fuel : nat) :
  forall node path st,
    rec_stack st = path ->
    (cycles st = [] -> finished_inv e st) ->
    ok (quiet_post e node st) (dfs e fuel node path st).
Proof.
  induction fuel as [|fuel IH]; intros node path st Hstack Hinv; [exact I|].
  simpl. destruct (Str.mem node (rec_stack st)) eqn:Hon.
  - apply mem_In in Hon. rewrite Hstack in Hon.
    destruct (index_In _ _ Hon) as [i [rest [Ei Es]]]. rewrite Ei, Es.
    assert (Hlen : (1 <? List.length ((node :: rest) ++ [node]))%nat = true)
      by (apply Nat.ltb_lt; rewrite length_app; simpl; lia).
    rewrite Hlen. cbn [andb].
    destruct (cycle_mem ((node :: rest) ++ [node]) (cycles st)) eqn:Hm;
      cbn [negb ok]; unfold quiet_post; cbn [cycles]; intros H.
    + rewrite H in Hm. discriminate.
    + apply app_eq_nil in H. destruct H; discriminate.
  - destruct (Str.mem node (visited st)) eqn:Hseen.
    + simpl. intros Hc. apply mem_In in Hseen. apply mem_nIn in Hon.
      split; [exact Hc | split; [split; assumption | now apply Hinv]].
    + apply mem_nIn in Hon. apply mem_nIn in Hseen.
      rewrite Hstack in Hon.
      set (st1 := {| cycles := cycles st;
                     visited := set_add node (visited st);
                     rec_stack := rec_stack st ++ [node] |}).
      pose (LI := fun (done : list string) (s : dfs_state) =>
                    rec_stack s = path ++ [node]
                    /\ incl (visited st1) (visited s)
                    /\ (cycles s = [] ->
                        cycles st = [] /\ finished_inv e s
                        /\ forall nb, In nb done -> finished s nb)).
      assert (L : ok (LI ([] ++ set_iter (neighbors e node)))
                     (loop (fun nb s => dfs e fuel nb (path ++ [node]) s)
                           (set_iter (neighbors e node)) (Done st1))).
      { apply loop_ok_from.
        - intros d nb s [Hs [Hv Hq]] _.
          pose proof (dfs_ok e fuel nb s Hs) as Hok.
          assert (Hqu : ok (quiet_post e nb s)
                           (dfs e fuel nb (path ++ [node]) s)).
          { apply IH; [exact Hs|]. intros Hc. now apply Hq. }
          destruct (dfs e fuel nb (path ++ [node]) s) as [s'| |];
            simpl in *; auto.
          destruct Hok as [Hs' [Hv' _]].
          split; [exact Hs' | split; [eapply incl_tran; eauto|]].
          intros Hc. destruct (Hqu Hc) as [Hc0 [Hnb Hfin]].
          destruct (Hq Hc0) as [Hc1 [_ Hdone]].
          split; [exact Hc1 | split; [exact Hfin|]].
          intros x Hx. apply in_app_or in Hx.
          destruct Hx as [Hx|[<-|[]]]; [|exact Hnb].
          destruct (Hdone x Hx) as [Hx1 Hx2].
          split; [now apply Hv' | now rewrite Hs'; rewrite Hs in Hx2].
        - unfold LI. simpl. split; [now rewrite Hstack | split; [apply incl_refl|]].
          intros Hc. split; [exact Hc|]. split; [|intros nb []].
          destruct (Hinv Hc) as [K0 [K1 K2]].
          assert (Hfin : forall b, finished st1 b -> finished st b).
          { intros b [Hb1 Hb2]. simpl in *. rewrite Hstack in Hb2.
            split.
            - apply set_add_In in Hb1. destruct Hb1 as [->|Hb1]; [|exact Hb1].
              exfalso. apply Hb2. apply in_or_app. right. now left.
            - rewrite Hstack. intros H. apply Hb2. apply in_or_app. now left. }
          assert (Hfin' : forall b, finished st b -> finished st1 b).
          { intros b [Hb1 Hb2]. simpl. rewrite Hstack in *. split.
            - apply set_add_In. now right.
            - intros H. apply in_app_or in H.
              destruct H as [H|[<-|[]]];
                [rewrite ?Hstack in H; now apply Hb2 | now apply Hseen]. }
          split; [|split].
          + simpl. intros x Hx. apply set_add_In. apply in_app_or in Hx.
            destruct Hx as [Hx|[<-|[]]]; [right; now apply K0 | now left].
          + intros b y Hb Hy. apply Hfin'. apply K1 with b; auto.
          + intros b Hb. apply K2. now apply Hfin. }
      unfold loop in L.
      match goal with |- ok _ (bind ?r _) => destruct r as [st2| |] end;
        simpl in *; auto.
      destruct L as [Hs [Hv Hq]]. rewrite Hs.
      destruct (path ++ [node]) eqn:E; [destruct path; discriminate|].
      rewrite <- E in *. clear E.
      unfold quiet_post. simpl. intros Hc.
      destruct (Hq Hc) as [Hc0 [[K0 [K1 K2]] Hnbs]].
      rewrite removelast_last.
      assert (Hnode : In node (visited st2)).
      { apply Hv. simpl. apply set_add_In. now left. }
      assert (Hold : forall b, b <> node ->
                               In b (visited st2) -> ~ In b path ->
                               finished st2 b).
      { intros b Hb H1 H2. split; [exact H1|]. rewrite Hs.
        intros H. apply in_app_or in H. destruct H as [H|[H|[]]]; auto. }
      assert (Hnew : forall b, finished st2 b ->
                               In b (visited st2) /\ ~ In b path).
      { intros b [H1 H2]. split; [exact H1|]. rewrite Hs in H2.
        intros H. apply H2. apply in_or_app. now left. }
      assert (Htargets : forall y, In y (neighbors e node) -> finished st2 y).
      { intros y Hy. apply Hnbs. now apply set_iter_In. }
      split; [exact Hc0|]. split; [split; assumption|].
      split; [|split].
      * intros x Hx. apply K0. rewrite Hs. apply in_or_app. now left.
      * intros b y [Hb1 Hb2] Hy. simpl in *.
        destruct (string_dec b node) as [->|Hb].
        -- now apply Hnew, Htargets.
        -- apply Hnew. apply K1 with b; [now apply Hold | exact Hy].
      * intros b [Hb1 Hb2] Hreach. simpl in *.
        destruct (string_dec b node) as [->|Hb].
        -- assert (Hfin : finished st2 node).
           { inversion Hreach as [x y Hy|x y z Hy Hyz]; subst.
             - now apply Htargets.
             - apply reach_finished with (e := e) (x := y); auto. }
           destruct Hfin as [_ Hfin]. apply Hfin. rewrite Hs.
           apply in_or_app. right. now left.
        -- apply (K2 b); [now apply Hold | exact Hreach].
Qed.
End Completeness.

Section SearchVerdict.
Context {order : SetOrder}.
Variable e : Dict.t (list string).

Lemma empty_report_acyclic :
  find_circular_dependencies e = Done [] -> forall x, ~ reach e x x.
Proof.
  intros E. unfold find_circular_dependencies in E.
  pose (TI := fun (done : list string) (s : dfs_state) =>
                rec_stack s = []
                /\ (cycles s = [] ->
                    finished_inv e s
                    /\ forall k, In k done -> In k (visited s))).
  assert (L : ok (TI ([] ++ Dict.keys e))
                 (loop (fun node s =>
                          if negb (Str.mem node (visited s))
                          then dfs e (dfs_fuel e) node [] s else Done s)
                       (Dict.keys e)
                       (Done {| cycles := []; visited := []; rec_stack := [] |}))).
  { apply loop_ok_from.
    - intros d node s [Hs Hq] _.
      destruct (Str.mem node (visited s)) eqn:Hseen; cbn [negb].
      + apply mem_In in Hseen. split; [exact Hs|]. intros Hc.
        destruct (Hq Hc) as [Hfin Hd]. split; [exact Hfin|].
        intros k Hk. apply in_app_or in Hk.
        destruct Hk as [Hk|[<-|[]]]; auto.
      + pose proof (dfs_ok e (dfs_fuel e) node s Hs) as Hok.
        assert (Hqu : ok (quiet_post e node s)
                         (dfs e (dfs_fuel e) node [] s)).
        { apply dfs_quiet; [exact Hs|]. intros Hc. now apply Hq. }
        destruct (dfs e (dfs_fuel e) node [] s) as [s'| |]; simpl in *; auto.
        destruct Hok as [Hs' [Hv' _]]. split; [exact Hs'|].
        intros Hc. destruct (Hqu Hc) as [Hc0 [[Hnode _] Hfin]].
        split; [exact Hfin|]. intros k Hk. apply in_app_or in Hk.
        destruct Hk as [Hk|[<-|[]]]; [|exact Hnode].
        apply Hv'. now apply Hq.
    - unfold TI. simpl. split; [reflexivity|]. intros _.
      split; [|intros k []].
      split; [intros x [] | split].
      + intros b y [[] _].
      + intros b [[] _]. }
  unfold loop in L.
  match type of E with bind ?r _ = _ => destruct r as [st| |] end;
    cbn [bind] in E; try discriminate.
  injection E as E. destruct L as [Hs Hq]. simpl in Hq.
  assert (Hc : cycles st = []) by (destruct (cycles st); [reflexivity | discriminate]).
  destruct (Hq Hc) as [[_ [_ K2]] Hkeys].
  intros x Hx. apply (K2 x); [|exact Hx].
  split; [|rewrite Hs; intros []].
  apply Hkeys. inversion Hx; subst; eapply neighbors_key; eauto.
Qed.

Lemma acyclic_empty_report :
  (forall x, ~ reach e x x) -> find_circular_dependencies e = Done [].
Proof.
  intros Hacyclic.
  destruct find_circular_dependencies_chains with (e := e)
    as [found [E [Hw [Hs _]]]].
  rewrite E. destruct found as [|c cs]; [reflexivity|].
  exfalso. inversion Hw as [|? ? Hwc _]; subst.
  inversion Hs as [|? ? [n [body [-> _]]] _]; subst.
  apply (Hacyclic n). now apply walk_reach with body.
Qed.
End SearchVerdict.

(** X1: whenever the cycle search returns, every chain it reports is a
    cycle of the adjacency map: it has the shape [n, ..., n], each node has
    the next one among its targets, so [n] reaches itself, and apart from
    the repeated end no node occurs twice in it. *)
Theorem reported_chains_are_simple_cycles :
  forall (order : SetOrder) (py : Interpreter) (e : Dict.t (list string))
         (found : list (list string)),
    Run.find_circular_dependencies py e = Done found ->
    forall c, In c found ->
      walk e c
      /\ exists n body,
           c = n :: body ++ [n] /\ NoDup (n :: body) /\ reach e n n.
Proof.
  intros order py e found Hrun c Hc.
  destruct (run_search_cases e py) as [[found' [E' E]]|E']; [|congruence].
  assert (found' = found) by congruence. subst found'.
  destruct find_circular_dependencies_chains with (e := e)
    as [found' [E0 [Hw [Hs _]]]].
  assert (found' = found) by congruence. subst found'.
  rewrite Forall_forall in Hw, Hs.
  pose proof (Hw c Hc) as Hwalk.
  destruct (Hs c Hc) as [n [body [-> Hnd]]].
  split; [exact Hwalk|]. exists n, body.
  split; [reflexivity | split; [exact Hnd|]].
  now apply walk_reach with body.
Qed.

Lemma reported_chains_are_simple_cycles_witness :
  walk [("a", ["b"]); ("b", ["a"])] ["a"; "b"; "a"]
  /\ exists n body,
       ["a"; "b"; "a"] = n :: body ++ [n]
       /\ NoDup (n :: body)
       /\ reach [("a", ["b"]); ("b", ["a"])] n n.
Proof.
  apply (@reported_chains_are_simple_cycles insertion_order
           Memory.interpreter [("a", ["b"]); ("b", ["a"])]
           [["a"; "b"; "a"]]).
  - vm_compute. reflexivity.
  - now left.
Defined.

(** X2: the cycle search reports no chain twice. *)
Theorem reported_chains_are_distinct :
  forall (order : SetOrder) (e : Dict.t (list string)),
  exists found,
    find_circular_dependencies e = Done found /\ NoDup found.
Proof.
  intros order e.
  destruct find_circular_dependencies_chains with (e := e)
    as [found [E [_ [_ Hn]]]].
  now exists found.
Qed.

(** X3: whenever the cycle search returns, it returns the empty list
    exactly when the adjacency map has no cycle, that is when no node
    reaches itself along one or more edges; so a search that returns on a
    map with a cycle reports at least one chain. *)
Theorem no_chain_reported_iff_acyclic :
  forall (order : SetOrder) (py : Interpreter) (e : Dict.t (list string))
         (found : list (list string)),
    Run.find_circular_dependencies py e = Done found ->
    (found = [] <-> forall x, ~ reach e x x).
Proof.
  intros order py e found Hrun.
  destruct (run_search_cases e py) as [[found' [E' E]]|E']; [|congruence].
  assert (found' = found) by congruence. subst found'.
  split.
  - intros ->. now apply empty_report_acyclic.
  - intros Hacyclic. apply acyclic_empty_report in Hacyclic. congruence.
Qed.

Lemma no_chain_reported_iff_acyclic_witness :
  [["a"; "b"; "a"]] = []
  <-> forall x, ~ reach [("a", ["b"]); ("b", ["a"])] x x.
Proof.
  apply (@no_chain_reported_iff_acyclic insertion_order
           Memory.interpreter [("a", ["b"]); ("b", ["a"])]
           [["a"; "b"; "a"]]).
  vm_compute. reflexivity.
Defined.

(** ** The loop over the files, import by import *)

Lemma record_import_cases (include_ext : bool)
      (file_lang file_path relative_path : string) (acc : scan_state)
      (module import_type : string) (symbols : list string) :
  (record_import include_ext file_lang file_path relative_path acc
                 (module, import_type, symbols) = acc
   /\ (module = EmptyString
       \/ (is_external_dependency module file_lang file_path = true
           /\ include_ext = false)))
  \/ (module <> EmptyString
      /\ is_external_dependency module file_lang file_path = true
      /\ include_ext = true
      /\ record_import include_ext file_lang file_path relative_path acc
                       (module, import_type, symbols)
         = with_external_import relative_path
             (Str.first_field "." (Str.first_field "/" module)) acc)
  \/ (module <> EmptyString
      /\ is_external_dependency module file_lang file_path = false
      /\ record_import include_ext file_lang file_path relative_path acc
                       (module, import_type, symbols)
         = with_internal_import relative_path module import_type symbols acc).
Proof.
  unfold record_import.
  destruct (String.eqb_spec module EmptyString) as [->|Hne]; [left; auto|].
  destruct (is_external_dependency module file_lang file_path) eqn:Hext.
  - destruct include_ext; [right; left; auto | left; auto].
  - right. right. auto.
Qed.

Section IndexedReturns.
Variables (S X : Type) (step : X -> S -> result S).
Variable Inv : list X -> S -> Prop.

Lemma loop_returns_from (l done : list X) :
  (forall d x s, Inv d s -> In x l -> returns (Inv (d ++ [x])) (step x s)) ->
  forall s, Inv done s -> returns (Inv (done ++ l)) (loop step l (Done s)).
Proof.
  revert done. induction l as [|x l IH]; intros done Hstep s Hs.
  - rewrite app_nil_r. now exists s.
  - simpl. destruct (Hstep done x s Hs (or_introl eq_refl)) as [s' [E Hs']].
    rewrite E. change (done ++ x :: l) with (done ++ [x] ++ l).
    rewrite app_assoc. apply IH; [|exact Hs'].
    intros d y t Hd Hy. apply Hstep; [exact Hd | now right].
Qed.
End IndexedReturns.

Section ScanInduction.
Variables (h : Host) (inputs : ExecuteInputs).

(** How a property of the accumulators is carried through the scan:
    [P done acc] speaks of the accumulators once the files [done] have
    been scanned, the last of them possibly in part. *)
Lemma scan_files_ind (P : list string -> scan_state -> Prop)
      (files : list string) :
  P [] initial_scan_state ->
  (forall done f acc,
      In f files -> P done acc ->
      P (done ++ [f]) (with_file_node (relative_path_of h inputs f) acc)) ->
  (forall done f acc imports imp,
      In f files ->
      parse_file_imports h f (file_language h inputs f) = Done imports ->
      In imp imports ->
      P (done ++ [f]) acc ->
      P (done ++ [f])
        (record_import (include_external inputs) (file_language h inputs f) f
                       (relative_path_of h inputs f) acc imp)) ->
  returns (P files) (scan_files h inputs files).
Proof.
  intros Hinit Hnode Himport. unfold scan_files.
  change files with ([] ++ files) at 1.
  apply (@loop_returns_from _ _
           (fun file_path st => scan_file h inputs st file_path) P).
  - intros d f acc Hacc Hf. unfold scan_file.
    destruct (parse_file_imports_returns h f (file_language h inputs f))
      as [imports E].
    rewrite E. cbn [bind]. eexists. split; [reflexivity|].
    apply fold_left_inv.
    + intros a imp Himp Ha. now apply Himport with imports.
    + now apply Hnode.
  - exact Hinit.
Qed.
End ScanInduction.

(** ** Dicts: lookup after update *)

Lemma set_add_NoDup (x : string) (s : list string) :
  NoDup s -> NoDup (set_add x s).
Proof.
  intros Hs. unfold set_add. destruct (Str.mem x s) eqn:E; [assumption|].
  apply mem_nIn in E.
  apply NoDup_app; [assumption | repeat constructor; intros [] |].
  intros y Hy [<-|[]]. contradiction.
Qed.

Lemma get_alter {V : Type} (f : V -> V) (dflt : V) (k k' : string)
      (d : Dict.t V) :
  Dict.get (Dict.alter f dflt k d) k'
  = if k' =? k
    then Some (f (match Dict.get d k with Some v => v | None => dflt end))
    else Dict.get d k'.
Proof.
  induction d as [|[k0 v0] d IH]; simpl.
  - rewrite (String.eqb_sym k k'). destruct (k' =? k); reflexivity.
  - destruct (String.eqb_spec k0 k) as [->|N]; simpl.
    + rewrite (String.eqb_sym k k'). destruct (k' =? k); reflexivity.
    + destruct (String.eqb_spec k0 k') as [->|N'].
      * destruct (String.eqb_spec k' k) as [->|_]; [contradiction | reflexivity].
      * exact IH.
Qed.

Lemma keys_alter {V : Type} (f : V -> V) (dflt : V) (k : string)
      (d : Dict.t V) :
  Dict.keys (Dict.alter f dflt k d) = set_add k (Dict.keys d).
Proof.
  unfold set_add, Str.mem, Dict.keys.
  induction d as [|[k0 v0] d IH]; simpl; [reflexivity|].
  rewrite (String.eqb_sym k k0).
  destruct (k0 =? k); simpl; [reflexivity|].
  rewrite IH. destruct (existsb (String.eqb k) (map fst d)); reflexivity.
Qed.

Lemma get_In {V : Type} (d : Dict.t V) (k : string) (v : V) :
  Dict.get d k = Some v -> In (k, v) d.
Proof.
  induction d as [|[k0 v0] d IH]; simpl; [discriminate|].
  destruct (String.eqb_spec k0 k) as [->|N]; [intros [= ->]; now left|].
  intros H. right. auto.
Qed.

Lemma In_get {V : Type} (d : Dict.t V) (k : string) (v : V) :
  NoDup (Dict.keys d) -> In (k, v) d -> Dict.get d k = Some v.
Proof.
  unfold Dict.keys. induction d as [|[k0 v0] d IH]; simpl; [intros _ []|].
  intros Hnd [[= -> ->]|Hin].
  - now rewrite String.eqb_refl.
  - inversion Hnd as [|? ? Hk0 Hd]; subst.
    destruct (String.eqb_spec k0 k) as [->|N]; [|auto].
    exfalso. apply Hk0. apply in_map_iff. now exists (k, v).
Qed.

(** ** Where records and edges come from *)

Section DepsFacts.
Variables (h : Host) (inputs : ExecuteInputs).

Lemma scan_files_deps (files : list string) :
  returns (deps_inv h inputs files) (scan_files h inputs files).
Proof.
  apply scan_files_ind.
  - split; [intros dep [] | split; [|split; [constructor | intros k ts []]]].
    intros k t. split; [intros [] | intros [dep [[] _]]].
  - intros done f acc _ [Ha [Hb [Hc Hd]]].
    split; [|split; [exact Hb | split; assumption]].
    intros dep Hdep. destruct (Ha dep Hdep) as [f0 [H0 H1]].
    exists f0. split; [apply in_or_app; now left | exact H1].
  - intros done f acc imports [[module import_type] symbols] _ _ _ Hacc.
    destruct (record_import_cases (include_external inputs)
                (file_language h inputs f) f (relative_path_of h inputs f)
                acc module import_type symbols)
      as [[-> _]|[[_ [_ [_ ->]]]|[Hne [Hint ->]]]]; [exact Hacc | exact Hacc |].
    destruct Hacc as [Ha [Hb [Hc Hd]]].
    unfold deps_inv, with_internal_import. cbn [internal_deps edges]. split; [|split; [|split]].
    + intros dep Hdep. apply in_app_or in Hdep.
      destruct Hdep as [Hdep|[<-|[]]]; [now apply Ha|].
      exists f. cbn. split; [apply in_or_app; right; now left | auto].
    + intros k t. unfold neighbors. rewrite get_alter.
      destruct (String.eqb_spec k (relative_path_of h inputs f)) as [->|Hk].
      * rewrite set_add_In. specialize (Hb (relative_path_of h inputs f) t).
        unfold neighbors in Hb. split.
        -- intros [->|Ht].
           ++ eexists. split; [apply in_or_app; right; now left|].
              split; reflexivity.
           ++ apply Hb in Ht. destruct Ht as [dep [H1 H2]].
              exists dep. split; [apply in_or_app; now left | exact H2].
        -- intros [dep [Hdep [Hs Ht]]]. apply in_app_or in Hdep.
           destruct Hdep as [Hdep|[<-|[]]]; [|now left].
           right. apply Hb. now exists dep.
      * specialize (Hb k t). unfold neighbors in Hb. rewrite Hb. split.
        -- intros [dep [H1 H2]]. exists dep.
           split; [apply in_or_app; now left | exact H2].
        -- intros [dep [Hdep [Hs Ht]]]. apply in_app_or in Hdep.
           destruct Hdep as [Hdep|[<-|[]]]; [now exists dep|].
           simpl in Hs. congruence.
    + rewrite keys_alter. now apply set_add_NoDup.
    + intros k ts Hin. apply alter_In in Hin.
      destruct Hin as [Hin|[_ [old [-> [->|Hold]]]]].
      * now apply Hd with k.
      * apply set_add_NoDup. constructor.
      * apply set_add_NoDup. now apply Hd with (relative_path_of h inputs f).
Qed.
End DepsFacts.

Section NodeFacts.
Variables (h : Host) (inputs : ExecuteInputs).

Lemma scan_files_nodes (files : list string) :
  returns (nodes_inv h inputs files) (scan_files h inputs files).
Proof.
  apply scan_files_ind.
  - split; [constructor|]. intros n.
    split; [intros [] | intros [[f [[] _]]|[dep [[] _]]]].
  - intros done f acc _ [Hnd Hn]. unfold nodes_inv, with_file_node.
    cbn [all_nodes internal_deps].
    split; [now apply set_add_NoDup|]. intros n.
    rewrite set_add_In, Hn. split.
    + intros [->|[[f0 [H0 H1]]|Hdep]].
      * left. exists f. split; [apply in_or_app; right; now left | reflexivity].
      * left. exists f0. split; [apply in_or_app; now left | exact H1].
      * now right.
    + intros [[f0 [H0 H1]]|Hdep]; [|now right; right].
      apply in_app_or in H0. destruct H0 as [H0|[<-|[]]]; [|now left].
      right. left. now exists f0.
  - intros done f acc imports [[module import_type] symbols] _ _ _ Hacc.
    destruct (record_import_cases (include_external inputs)
                (file_language h inputs f) f (relative_path_of h inputs f)
                acc module import_type symbols)
      as [[-> _]|[[_ [_ [_ ->]]]|[Hne [Hint ->]]]]; [exact Hacc | exact Hacc |].
    destruct Hacc as [Hnd Hn]. unfold nodes_inv, with_internal_import.
    cbn [all_nodes internal_deps].
    split; [now apply set_add_NoDup|]. intros n.
    rewrite set_add_In, Hn. split.
    + intros [->|[Hf|[dep [H0 H1]]]].
      * right. eexists. split; [apply in_or_app; right; now left | reflexivity].
      * now left.
      * right. exists dep. split; [apply in_or_app; now left | exact H1].
    + intros [Hf|[dep [H0 H1]]]; [now right; left|].
      apply in_app_or in H0. destruct H0 as [H0|[<-|[]]]; [|now left].
      right. right. now exists dep.
Qed.

Lemma scan_files_ext (files : list string) :
  returns (ext_inv h inputs files) (scan_files h inputs files).
Proof.
  apply scan_files_ind.
  - split; [reflexivity | split; [constructor | intros k u []]].
  - intros done f acc _ [H1 [H2 H3]]. unfold ext_inv, with_file_node.
    cbn [external_nodes external_deps_map].
    split; [exact H1 | split; [exact H2|]].
    intros k u Hin. destruct (H3 k u Hin) as [Hc [Hu Hp]].
    split; [exact Hc | split; [exact Hu|]].
    intros p Hpin. destruct (Hp p Hpin) as [f0 [H0 H0']].
    exists f0. split; [apply in_or_app; now left | exact H0'].
  - intros done f acc imports [[module import_type] symbols] _ _ _ Hacc.
    destruct (record_import_cases (include_external inputs)
                (file_language h inputs f) f (relative_path_of h inputs f)
                acc module import_type symbols)
      as [[-> _]|[[_ [_ [_ ->]]]|[Hne [Hint ->]]]];
      [exact Hacc | | exact Hacc].
    destruct Hacc as [H1 [H2 H3]]. unfold ext_inv, with_external_import.
    cbn [external_nodes external_deps_map].
    split; [now rewrite keys_alter, H1|].
    split; [rewrite keys_alter; now apply set_add_NoDup|].
    intros k u Hin. apply alter_In in Hin.
    destruct Hin as [Hin|[_ [old [-> Hold]]]]; [exact (H3 k u Hin)|].
    cbn [Usage.count Usage.used_in].
    assert (Hold' : Usage.count old = List.length (Usage.used_in old)
                    /\ forall p, In p (Usage.used_in old) ->
                         exists f0, In f0 (done ++ [f])
                                    /\ p = relative_path_of h inputs f0).
    { destruct Hold as [->|Hold]; [split; [reflexivity | intros p []]|].
      destruct (H3 _ _ Hold) as [Hc [_ Hp]]. now split. }
    destruct Hold' as [Hc Hp]. split; [|split].
    + rewrite length_app, Hc. reflexivity.
    + intros E. apply app_eq_nil in E. destruct E; discriminate.
    + intros p Hpin. apply in_app_or in Hpin.
      destruct Hpin as [Hpin|[<-|[]]]; [now apply Hp|].
      exists f. split; [apply in_or_app; right; now left | reflexivity].
Qed.
End NodeFacts.

(** ** Sorting, sets and prefixes *)

Lemma insert_desc_perm {A : Type} (key : A -> nat) (x : A) (l : list A) :
  Permutation (x :: l) (insert_desc key x l).
Proof.
  induction l as [|y l IH]; simpl; [apply Permutation_refl|].
  destruct (key x <? key y)%nat; [|apply Permutation_refl].
  eapply Permutation_trans; [apply perm_swap|]. now constructor.
Qed.

Lemma sorted_desc_perm {A : Type} (key : A -> nat) (l : list A) :
  Permutation l (sorted_desc key l).
Proof.
  unfold sorted_desc. induction l as [|x l IH]; simpl; [constructor|].
  eapply Permutation_trans; [|apply insert_desc_perm]. now constructor.
Qed.

Lemma insert_desc_descending {A : Type} (key : A -> nat) (x : A) (l : list A) :
  descending key l -> descending key (insert_desc key x l).
Proof.
  induction l as [|y l IH]; intros H; simpl.
  - split; [constructor | exact I].
  - destruct (key x <? key y)%nat eqn:E.
    + destruct H as [Hy Hl]. split; [|now apply IH].
      apply Nat.ltb_lt in E.
      apply (Permutation_Forall (insert_desc_perm key x l)).
      constructor; [lia | exact Hy].
    + apply Nat.ltb_ge in E. destruct H as [Hy Hl].
      split; [|split; assumption].
      constructor; [exact E|].
      eapply Forall_impl; [|exact Hy]. simpl. intros a Ha. lia.
Qed.

Lemma sorted_desc_descending {A : Type} (key : A -> nat) (l : list A) :
  descending key (sorted_desc key l).
Proof.
  unfold sorted_desc. induction l as [|x l IH]; simpl; [exact I|].
  now apply insert_desc_descending.
Qed.

Lemma descending_firstn {A : Type} (key : A -> nat) (n : nat) (l : list A) :
  descending key l -> descending key (firstn n l).
Proof.
  revert n. induction l as [|x l IH]; intros n H; [now destruct n|].
  destruct n as [|n]; [exact I|]. simpl. destruct H as [Hx Hl].
  split; [|now apply IH].
  rewrite Forall_forall in *. intros y Hy. apply Hx.
  now apply In_firstn_In with n.
Qed.

Lemma descending_map {A B : Type} (f : A -> B) (key : B -> nat) (l : list A) :
  descending (fun a => key (f a)) l -> descending key (map f l).
Proof.
  induction l as [|x l IH]; intros H; [exact I|].
  destruct H as [Hx Hl]. simpl. split; [|now apply IH].
  apply Forall_map. exact Hx.
Qed.

Lemma NoDup_firstn {A : Type} (n : nat) (l : list A) :
  NoDup l -> NoDup (firstn n l).
Proof.
  intros H. rewrite <- (firstn_skipn n l) in H.
  now apply NoDup_app_remove_r in H.
Qed.

Lemma set_of_list_spec (xs : list string) :
  NoDup (set_of_list xs) /\ (forall x, In x (set_of_list xs) <-> In x xs)
  /\ List.length (set_of_list xs) <= List.length xs.
Proof.
  unfold set_of_list.
  enough (G : forall acc,
             NoDup acc ->
             NoDup (fold_left (fun s x => set_add x s) xs acc)
             /\ (forall x, In x (fold_left (fun s x => set_add x s) xs acc)
                           <-> In x acc \/ In x xs)
             /\ List.length (fold_left (fun s x => set_add x s) xs acc)
                <= List.length acc + List.length xs).
  { destruct (G [] (NoDup_nil _)) as [G1 [G2 G3]].
    split; [exact G1 | split; [|exact G3]].
    intros x. rewrite G2. simpl. tauto. }
  induction xs as [|a xs IH]; intros acc Hacc; simpl.
  - split; [exact Hacc | split; [tauto | lia]].
  - destruct (IH (set_add a acc) (set_add_NoDup a Hacc)) as [G1 [G2 G3]].
    split; [exact G1 | split].
    + intros x. rewrite G2, set_add_In. intuition congruence.
    + assert (List.length (set_add a acc) <= S (List.length acc)).
      { unfold set_add. destruct (Str.mem a acc); [lia|].
        rewrite length_app. simpl. lia. }
      lia.
Qed.

Lemma map_NoDup_inj {A B : Type} (f : A -> B) (l : list A) :
  (forall a b, f a = f b -> a = b) -> NoDup l -> NoDup (map f l).
Proof.
  intros Hinj. induction 1 as [|x l Hx _ IH]; simpl; constructor; [|exact IH].
  intros H. apply in_map_iff in H. destruct H as [y [E Hy]].
  apply Hinj in E. now subst.
Qed.

Lemma set_iter_NoDup {order : SetOrder} (s : list string) :
  NoDup s -> NoDup (set_iter s).
Proof.
  intros H. apply (Permutation_NoDup (Permutation_sym (set_iter_perm s)) H).
Qed.

Section EdgeListFacts.
Context {order : SetOrder}.

Lemma graph_edges_NoDup (e : Dict.t (list string)) :
  NoDup (Dict.keys e) ->
  (forall k ts, In (k, ts) e -> NoDup ts) ->
  NoDup (build_graph_edges e).
Proof.
  unfold Dict.keys. induction e as [|[k ts] d IH]; intros Hk Hv;
    [constructor|].
  simpl in Hk. inversion Hk as [|? ? Hk1 Hk2]; subst.
  change (build_graph_edges ((k, ts) :: d))
    with (map (fun target => {| GraphEdge.source := k;
                                GraphEdge.target := target;
                                GraphEdge.weight := 1 |})
              (set_iter ts) ++ build_graph_edges d).
  apply NoDup_app.
  - apply map_NoDup_inj.
    + intros a b [= E]. exact E.
    + apply set_iter_NoDup. apply Hv with k. now left.
  - apply IH; [exact Hk2|]. intros k' ts' H. apply Hv with k'. now right.
  - intros edge H1 H2. apply in_map_iff in H1. destruct H1 as [t [<- _]].
    apply graph_edges_In in H2. destruct H2 as [ts' [H2 _]]. simpl in H2.
    apply Hk1. apply in_map_iff. now exists (k, ts').
Qed.

Lemma edge_targets_spec (e : Dict.t (list string)) :
  NoDup (edge_targets e)
  /\ forall t, In t (edge_targets e) <->
               exists ts, In ts (Dict.values e) /\ In t ts.
Proof.
  unfold edge_targets.
  enough (G : forall acc,
             NoDup acc ->
             NoDup (fold_left
                      (fun targets t_set =>
                         fold_left (fun a t => set_add t a)
                                   (set_iter t_set) targets)
                      (Dict.values e) acc)
             /\ forall t,
                  In t (fold_left
                          (fun targets t_set =>
                             fold_left (fun a t => set_add t a)
                                       (set_iter t_set) targets)
                          (Dict.values e) acc)
                  <-> In t acc \/ exists ts, In ts (Dict.values e) /\ In t ts).
  { destruct (G [] (NoDup_nil _)) as [G1 G2]. split; [exact G1|].
    intros t. rewrite G2. simpl. tauto. }
  induction (Dict.values e) as [|v vs IH]; intros acc Hacc; simpl.
  - split; [exact Hacc|]. intros t. split; [tauto|].
    intros [H|[ts [[] _]]]. exact H.
  - assert (Hnd : NoDup (fold_left (fun a t => set_add t a) (set_iter v) acc)).
    { apply fold_left_inv; [|exact Hacc].
      intros a x _ Ha. now apply set_add_NoDup. }
    destruct (IH _ Hnd) as [G1 G2]. split; [exact G1|].
    intros t. rewrite G2, fold_set_add_In, set_iter_In. split.
    + intros [[H|H]|[ts [H1 H2]]]; [now left | |].
      * right. exists v. split; [now left | exact H].
      * right. exists ts. split; [now right | exact H2].
    + intros [H|[ts [[<-|H1] H2]]]; [left; now left | left; now right |].
      right. now exists ts.
Qed.
End EdgeListFacts.

(** ** Reports of a scan that found files *)

Section ReportFacts.
Context {order : SetOrder}.
Variable h : Host.

(** Every report is degenerate or assembled from a scan whose
    accumulators satisfy the invariants above. *)
Lemma report_cases (inputs : ExecuteInputs) :
  let files := get_source_files h (source_path inputs) (language inputs) in
  (exists s, map_dependencies h inputs = Done (MapOutputs.with_summary s))
  \/ (exists st circular,
         scan_files h inputs files = Done st
         /\ scan_inv (include_external inputs) st
         /\ deps_inv h inputs files st
         /\ nodes_inv h inputs files st
         /\ ext_inv h inputs files st
         /\ find_circular_dependencies (edges st) = Done circular
         /\ map_dependencies h inputs = Done (assemble files st circular)).
Proof.
  intros files.
  destruct (map_dependencies_cases h inputs)
    as [[_ H]|[[_ [_ H]]|[_ [_ [st [circular [Es [Hs [Ec [_ [_ H]]]]]]]]]]];
    [left; eexists; exact H | left; eexists; exact H | right].
  fold files in Es, H.
  exists st, circular. split; [exact Es|]. split; [exact Hs|].
  destruct (scan_files_deps h inputs files) as [s1 [E1 H1]].
  destruct (scan_files_nodes h inputs files) as [s2 [E2 H2]].
  destruct (scan_files_ext h inputs files) as [s3 [E3 H3]].
  rewrite Es in E1, E2, E3.
  injection E1 as <-. injection E2 as <-. injection E3 as <-.
  repeat (split; [assumption|]). exact H.
Qed.
End ReportFacts.

(** ** Totals *)

(** C2, as the claim states it, fails on one file with a hundred and one
    imports of [./b]: the total is 101 while the returned internal list has
    100 entries and the external list none, with external dependencies
    included and excluded alike. *)
Lemma total_exceeds_returned_lists :
  (exists out,
      @map_dependencies insertion_order
        (Memory.host "proj" Memory.repeated_import) (Memory.inputs "proj" true)
      = Done out
      /\ MapOutputs.total_dependencies out = 101
      /\ List.length (MapOutputs.internal_dependencies out) = 100
      /\ List.length (MapOutputs.external_dependencies out) = 0)
  /\ (exists out,
      @map_dependencies insertion_order
        (Memory.host "proj" Memory.repeated_import) (Memory.inputs "proj" false)
      = Done out
      /\ MapOutputs.total_dependencies out = 101
      /\ List.length (MapOutputs.internal_dependencies out) = 100
      /\ List.length (MapOutputs.external_dependencies out) = 0).
Proof.
  split; eexists; (split; [vm_compute; reflexivity|]);
    repeat split; vm_compute; reflexivity.
Qed.

(** C2 (amended): the total counts the internal import records and the
    distinct external roots that the scan found, before the output caps of
    100 and 50 cut the two lists. So the total is never less than the sum
    of the lengths of the two returned lists, and equals it whenever the
    internal list has fewer than 100 entries and the external list fewer
    than 50; when external dependencies are excluded the external list is
    empty and the total equals the length of the internal list whenever
    that is below 100. Without a scan (the path does not exist) the total
    is zero. *)
Theorem total_dependencies_counts_before_caps :
  forall (order : SetOrder) (h : Host) (inputs : ExecuteInputs),
  exists out,
    map_dependencies h inputs = Done out
    /\ (path_exists h (source_path inputs) = false ->
        MapOutputs.total_dependencies out = 0)
    /\ (path_exists h (source_path inputs) = true ->
        exists st,
          scan_files h inputs
            (get_source_files h (source_path inputs) (language inputs))
          = Done st
          /\ MapOutputs.total_dependencies out
             = List.length (internal_deps st)
               + List.length (build_external_deps (external_deps_map st))
          /\ NoDup (map ExternalDependency.name
                        (build_external_deps (external_deps_map st)))
          /\ MapOutputs.internal_dependencies out
             = firstn 100 (internal_deps st)
          /\ MapOutputs.external_dependencies out
             = firstn 50 (build_external_deps (external_deps_map st)))
    /\ List.length (MapOutputs.internal_dependencies out)
       + List.length (MapOutputs.external_dependencies out)
       <= MapOutputs.total_dependencies out
    /\ (List.length (MapOutputs.internal_dependencies out) < 100 ->
        List.length (MapOutputs.external_dependencies out) < 50 ->
        MapOutputs.total_dependencies out
        = List.length (MapOutputs.internal_dependencies out)
          + List.length (MapOutputs.external_dependencies out))
    /\ (include_external inputs = false ->
        MapOutputs.external_dependencies out = []
        /\ (List.length (MapOutputs.internal_dependencies out) < 100 ->
            MapOutputs.total_dependencies out
            = List.length (MapOutputs.internal_dependencies out))).
Proof.
  intros order h inputs.
  destruct (map_dependencies_cases h inputs)
    as [[Hno H]|[[Hyes [Hnone H]]
                |[Hyes [_ [st [circular [Es [[_ Hx] [_ [_ [_ H]]]]]]]]]]];
    eexists; (split; [exact H|]).
  - split; [reflexivity|]. split; [congruence|].
    simpl. repeat split; auto.
  - split; [reflexivity|]. split.
    + intros _. exists initial_scan_state. rewrite Hnone.
      split; [reflexivity|]. split; [reflexivity|].
      split; [constructor|]. split; reflexivity.
    + simpl. repeat split; auto.
  - split; [congruence|]. split.
    + intros _. exists st. split; [exact Es|]. split; [reflexivity|].
      split; [|split; reflexivity].
      destruct (scan_files_ext h inputs
                  (get_source_files h (source_path inputs) (language inputs)))
        as [st' [Es' [_ [Hk _]]]].
      assert (st' = st) by congruence. subst st'.
      unfold build_external_deps. rewrite map_map.
      cbn [ExternalDependency.name].
      apply (Permutation_NoDup
               (Permutation_map fst
                  (sorted_desc_perm
                     (fun entry : string * Usage.t => Usage.count (snd entry))
                     (external_deps_map st)))).
      exact Hk.
    + unfold assemble.
      cbn [MapOutputs.total_dependencies MapOutputs.internal_dependencies
           MapOutputs.external_dependencies].
      split; [|split].
      * rewrite !length_firstn. lia.
      * intros Hi He. apply firstn_short in Hi. apply firstn_short in He.
        now rewrite Hi, He.
      * intros Hoff. rewrite (Hx Hoff). split; [reflexivity|].
        intros Hi. apply firstn_short in Hi. rewrite Hi. simpl. lia.
Qed.

Lemma total_dependencies_counts_before_caps_witness :
  exists out,
    @map_dependencies insertion_order (Memory.host "proj" Memory.two_files)
                      (Memory.inputs "proj" false) = Done out
    /\ MapOutputs.external_dependencies out = []
    /\ MapOutputs.total_dependencies out
       = List.length (MapOutputs.internal_dependencies out).
Proof.
  destruct (@total_dependencies_counts_before_caps insertion_order
              (Memory.host "proj" Memory.two_files)
              (Memory.inputs "proj" false))
    as [out [E [_ [_ [_ [_ H]]]]]].
  destruct (H eq_refl) as [Hext Htotal].
  exists out. split; [exact E | split; [exact Hext|]].
  apply Htotal.
  vm_compute in E. injection E as <-. vm_compute. lia.
Defined.

(** X4: every internal dependency record of a report is an import of a
    scanned source file: its source is the node id of that file, its
    target is not empty, and the classifier answers internal for the target
    in the language of that file. *)
Theorem internal_dependencies_are_internal_imports :
  forall (order : SetOrder) (h : Host) (inputs : ExecuteInputs),
  exists out,
    map_dependencies h inputs = Done out
    /\ forall dep, In dep (MapOutputs.internal_dependencies out) ->
         exists f,
           In f (get_source_files h (source_path inputs) (language inputs))
           /\ InternalDependency.source dep = relative_path_of h inputs f
           /\ InternalDependency.target dep <> EmptyString
           /\ is_external_dependency (InternalDependency.target dep)
                                     (file_language h inputs f) f = false.
Proof.
  intros order h inputs.
  destruct (report_cases h inputs)
    as [[s H]|[st [circular [_ [_ [[Hd _] [_ [_ [_ H]]]]]]]]];
    eexists; (split; [exact H|]).
  - intros dep [].
  - unfold assemble. cbn [MapOutputs.internal_dependencies].
    intros dep Hdep. apply Hd. now apply In_firstn_In in Hdep.
Qed.

Lemma graph_edges_weight {order : SetOrder} (e : Dict.t (list string))
      (edge : GraphEdge.t) :
  In edge (build_graph_edges e) -> GraphEdge.weight edge = 1.
Proof.
  unfold build_graph_edges. rewrite in_flat_map.
  intros [[k ts] [_ Hin]]. apply in_map_iff in Hin.
  destruct Hin as [t [<- _]]. reflexivity.
Qed.

Lemma neighbors_In (e : Dict.t (list string)) (k t : string) :
  In t (neighbors e k) -> exists ts, In (k, ts) e /\ In t ts.
Proof.
  unfold neighbors. destruct (Dict.get e k) as [ts|] eqn:E; [|intros []].
  intros H. exists ts. split; [now apply get_In | exact H].
Qed.

Lemma In_neighbors (e : Dict.t (list string)) (k t : string) (ts : list string) :
  NoDup (Dict.keys e) -> In (k, ts) e -> In t ts -> In t (neighbors e k).
Proof.
  intros Hnd Hin Ht. unfold neighbors. now rewrite (@In_get _ e k ts Hnd Hin).
Qed.

Lemma walk_members (e : Dict.t (list string)) (body : list string) (n x : string) :
  walk e (n :: body ++ [n]) -> In x (n :: body ++ [n]) ->
  exists y, In y (neighbors e x).
Proof.
  intros Hw Hx.
  assert (Hn : exists y, In y (neighbors e n)).
  { simpl in Hw. destruct (body ++ [n]) as [|y r] eqn:E;
      [destruct body; discriminate|]. exists y. tauto. }
  change (n :: body ++ [n]) with ((n :: body) ++ [n]) in *.
  apply in_app_or in Hx. destruct Hx as [Hx|[<-|[]]]; [|exact Hn].
  clear Hn. revert Hw Hx. generalize (n :: body) as l. clear body.
  induction l as [|a l IH]; intros Hw Hx; [destruct Hx|].
  destruct Hx as [->|Hx].
  - simpl in Hw. destruct (l ++ [n]) as [|y r] eqn:E;
      [destruct l; discriminate|]. exists y. tauto.
  - apply IH; [|exact Hx]. now apply walk_tail with a.
Qed.

(** X5: the returned edge list repeats no edge, every returned edge has
    weight 1 and joins the source and the target of an internal dependency
    record of the scan, and every such record has its edge in the graph the
    scan built: imports between the same pair collapse to one edge. *)
Theorem graph_edges_are_the_distinct_internal_imports :
  forall (order : SetOrder) (h : Host) (inputs : ExecuteInputs),
  exists out st,
    map_dependencies h inputs = Done out
    /\ scan_files h inputs
         (get_source_files h (source_path inputs) (language inputs)) = Done st
    /\ NoDup (DependencyGraph.edges (MapOutputs.dependency_graph out))
    /\ (forall edge,
           In edge (DependencyGraph.edges (MapOutputs.dependency_graph out)) ->
           GraphEdge.weight edge = 1
           /\ exists dep,
                In dep (internal_deps st)
                /\ InternalDependency.source dep = GraphEdge.source edge
                /\ InternalDependency.target dep = GraphEdge.target edge)
    /\ (forall dep,
           In dep (internal_deps st) ->
           In {| GraphEdge.source := InternalDependency.source dep;
                 GraphEdge.target := InternalDependency.target dep;
                 GraphEdge.weight := 1 |}
              (build_graph_edges (edges st))).
Proof.
  intros order h inputs.
  destruct (scan_files_deps h inputs
              (get_source_files h (source_path inputs) (language inputs)))
    as [st [Es [_ [Hb [Hk Hv]]]]].
  assert (Hback : forall dep,
             In dep (internal_deps st) ->
             In {| GraphEdge.source := InternalDependency.source dep;
                   GraphEdge.target := InternalDependency.target dep;
                   GraphEdge.weight := 1 |}
                (build_graph_edges (edges st))).
  { intros dep Hdep.
    assert (Hn : In (InternalDependency.target dep)
                    (neighbors (edges st) (InternalDependency.source dep)))
      by (apply Hb; now exists dep).
    apply neighbors_In in Hn. destruct Hn as [ts [H1 H2]].
    now apply graph_edges_intro with ts. }
  destruct (report_cases h inputs)
    as [[s H]|[st' [circular [Es' [_ [_ [_ [_ [_ H]]]]]]]]];
    eexists; exists st; (split; [exact H|]); (split; [exact Es|]).
  - split; [constructor | split; [intros edge [] | exact Hback]].
  - rewrite Es in Es'. injection Es' as <-.
    unfold assemble.
    cbn [MapOutputs.dependency_graph DependencyGraph.edges].
    split; [apply NoDup_firstn; now apply graph_edges_NoDup|].
    split; [|exact Hback].
    intros edge Hedge. apply In_firstn_In in Hedge.
    split; [now apply graph_edges_weight with (edges st)|].
    destruct (graph_edges_In _ _ Hedge) as [ts [H1 H2]].
    apply Hb. now apply In_neighbors with ts.
Qed.

(** X6: every node of every chain in [circular_dependencies] is the node
    id of a scanned source file that has an internal dependency record;
    names of external packages and unscanned targets are never members. *)
Theorem circular_members_are_scanned_files :
  forall (order : SetOrder) (h : Host) (inputs : ExecuteInputs),
  exists out,
    map_dependencies h inputs = Done out
    /\ forall c x,
         In c (MapOutputs.circular_dependencies out) -> In x c ->
         exists f,
           In f (get_source_files h (source_path inputs) (language inputs))
           /\ x = relative_path_of h inputs f.
Proof.
  intros order h inputs.
  destruct (report_cases h inputs)
    as [[s H]|[st [circular [_ [_ [[Ha [Hb _]] [_ [_ [Ec H]]]]]]]]];
    eexists; (split; [exact H|]).
  - intros c x [].
  - unfold assemble. cbn [MapOutputs.circular_dependencies].
    intros c x Hc Hx.
    destruct find_circular_dependencies_chains with (e := edges st)
      as [found [E [Hw [Hs _]]]].
    rewrite Ec in E. injection E as <-.
    rewrite Forall_forall in Hw, Hs.
    pose proof (Hw c Hc) as Hwalk. destruct (Hs c Hc) as [n [body [-> _]]].
    assert (Hy : exists y, In y (neighbors (edges st) x))
      by (eapply walk_members; eassumption).
    destruct Hy as [y Hy].
    apply Hb in Hy. destruct Hy as [dep [Hdep [Hsrc _]]].
    destruct (Ha dep Hdep) as [f [Hf [Hsf _]]].
    exists f. split; [exact Hf | congruence].
Qed.

(** X7: every reported entry point is the node id of a scanned source
    file. *)
Theorem entry_points_are_scanned_files :
  forall (order : SetOrder) (h : Host) (inputs : ExecuteInputs),
  exists out,
    map_dependencies h inputs = Done out
    /\ forall n,
         In n (MapOutputs.entry_points out) ->
         exists f,
           In f (get_source_files h (source_path inputs) (language inputs))
           /\ n = relative_path_of h inputs f.
Proof.
  intros order h inputs.
  destruct (report_cases h inputs)
    as [[s H]|[st [circular [_ [[He _] [[Ha [Hb [Hk _]]] [_ [_ [_ H]]]]]]]]];
    eexists; (split; [exact H|]).
  - intros n [].
  - unfold assemble. cbn [MapOutputs.entry_points].
    intros n Hn. apply In_firstn_In in Hn.
    unfold find_entry_points in Hn. apply filter_In in Hn.
    destruct Hn as [_ Hn]. apply andb_true_iff in Hn. destruct Hn as [_ Hkey].
    apply dict_mem_In in Hkey. destruct Hkey as [ts Hts].
    destruct (He n ts Hts) as [Hne _].
    destruct ts as [|t ts']; [now contradiction Hne|].
    assert (Hn : In t (neighbors (edges st) n))
      by (apply In_neighbors with (t :: ts'); [exact Hk | exact Hts | now left]).
    apply Hb in Hn. destruct Hn as [dep [Hdep [Hsrc _]]].
    destruct (Ha dep Hdep) as [f [Hf [Hsf _]]].
    exists f. split; [exact Hf | congruence].
Qed.

(** X8: every returned graph node has its id as path and is typed
    internal or external, and a node is typed external only when external
    dependencies are included; the returned node list repeats no node. *)
Theorem graph_nodes_are_typed_and_distinct :
  forall (order : SetOrder) (h : Host) (inputs : ExecuteInputs),
  exists out,
    map_dependencies h inputs = Done out
    /\ NoDup (DependencyGraph.nodes (MapOutputs.dependency_graph out))
    /\ forall node,
         In node (DependencyGraph.nodes (MapOutputs.dependency_graph out)) ->
         GraphNode.path node = GraphNode.id node
         /\ (GraphNode.type node = "internal"
             \/ (GraphNode.type node = "external"
                 /\ include_external inputs = true)).
Proof.
  intros order h inputs.
  destruct (report_cases h inputs)
    as [[s H]|[st [circular [_ [[_ Hoff] [_ [[Hn _] [[He [Hk _]] [_ H]]]]]]]]];
    eexists; (split; [exact H|]).
  - split; [constructor | intros node []].
  - unfold assemble.
    cbn [MapOutputs.dependency_graph DependencyGraph.nodes].
    split.
    + apply NoDup_firstn. unfold build_graph_nodes. apply NoDup_app.
      * apply map_NoDup_inj; [intros a b [= E]; exact E|].
        now apply set_iter_NoDup.
      * apply map_NoDup_inj; [intros a b [= E]; exact E|].
        apply set_iter_NoDup. now rewrite He.
      * intros node H1 H2. apply in_map_iff in H1. apply in_map_iff in H2.
        destruct H1 as [a [<- _]]. destruct H2 as [b [E _]]. discriminate.
    + intros node Hnode. apply In_firstn_In in Hnode.
      unfold build_graph_nodes in Hnode. apply in_app_or in Hnode.
      destruct Hnode as [Hnode|Hnode]; apply in_map_iff in Hnode;
        destruct Hnode as [a [<- Ha]]; (split; [reflexivity|]);
        [now left | right].
      split; [reflexivity|].
      destruct (include_external inputs); [reflexivity|].
      rewrite He, (Hoff eq_refl) in Ha. simpl in Ha.
      rewrite set_iter_nil in Ha. destruct Ha.
Qed.

(** X9: every returned external dependency has been imported at least
    once; its [used_in] list holds between one and ten node ids of scanned
    files, none twice, and never more than [import_count]; and no two
    returned external dependencies have the same name. *)
Theorem external_dependencies_are_counted_roots :
  forall (order : SetOrder) (h : Host) (inputs : ExecuteInputs),
  exists out,
    map_dependencies h inputs = Done out
    /\ NoDup (map ExternalDependency.name (MapOutputs.external_dependencies out))
    /\ forall ext,
         In ext (MapOutputs.external_dependencies out) ->
         1 <= ExternalDependency.import_count ext
         /\ 1 <= List.length (ExternalDependency.used_in ext) <= 10
         /\ List.length (ExternalDependency.used_in ext)
            <= ExternalDependency.import_count ext
         /\ NoDup (ExternalDependency.used_in ext)
         /\ forall p,
              In p (ExternalDependency.used_in ext) ->
              exists f,
                In f (get_source_files h (source_path inputs) (language inputs))
                /\ p = relative_path_of h inputs f.
Proof.
  intros order h inputs.
  destruct (report_cases h inputs)
    as [[s H]|[st [circular [_ [_ [_ [_ [[_ [Hk Hu]] [_ H]]]]]]]]];
    eexists; (split; [exact H|]).
  - split; [constructor | intros ext []].
  - unfold assemble. cbn [MapOutputs.external_dependencies].
    unfold build_external_deps.
    set (key := fun entry : string * Usage.t => Usage.count (snd entry)).
    pose proof (sorted_desc_perm key (external_deps_map st)) as Hperm.
    split.
    + rewrite <- firstn_map, map_map. cbn [ExternalDependency.name].
      apply NoDup_firstn.
      apply (Permutation_NoDup (Permutation_map fst Hperm)). exact Hk.
    + intros ext Hext. apply In_firstn_In in Hext.
      apply in_map_iff in Hext. destruct Hext as [[k u] [<- Hin]].
      apply (Permutation_in _ (Permutation_sym Hperm)) in Hin.
      destruct (Hu k u Hin) as [Hc [Hne Hp]].
      cbn [ExternalDependency.import_count ExternalDependency.used_in fst snd].
      destruct (set_of_list_spec (Usage.used_in u)) as [S1 [S2 S3]].
      assert (Hlen : 1 <= List.length (Usage.used_in u))
        by (destruct (Usage.used_in u); [now contradiction Hne | simpl; lia]).
      assert (Hset : 1 <= List.length (set_of_list (Usage.used_in u))).
      { destruct (Usage.used_in u) as [|a l] eqn:E; [now contradiction Hne|].
        assert (Ha : In a (set_of_list (a :: l))) by (apply S2; now left).
        destruct (set_of_list (a :: l)); [destruct Ha | simpl; lia]. }
      rewrite length_firstn, set_iter_length.
      split; [lia | split; [lia | split; [lia | split]]].
      * apply NoDup_firstn. now apply set_iter_NoDup.
      * intros p Hpin. apply In_firstn_In in Hpin.
        apply (proj1 (set_iter_In _ _)) in Hpin. apply S2 in Hpin.
        now apply Hp.
Qed.

(** X10: the returned external dependencies are listed by non-increasing
    [import_count], and the highly depended files by non-increasing
    [dependents_count]. *)
Theorem reports_are_sorted_by_count :
  forall (order : SetOrder) (h : Host) (inputs : ExecuteInputs),
  exists out,
    map_dependencies h inputs = Done out
    /\ descending ExternalDependency.import_count
                  (MapOutputs.external_dependencies out)
    /\ descending HighlyDepended.dependents_count
                  (MapOutputs.highly_depended out).
Proof.
  intros order h inputs.
  destruct (report_cases h inputs)
    as [[s H]|[st [circular [_ [_ [_ [_ [_ [_ H]]]]]]]]];
    eexists; (split; [exact H|]).
  - split; exact I.
  - unfold assemble.
    cbn [MapOutputs.external_dependencies MapOutputs.highly_depended].
    split.
    + apply descending_firstn. unfold build_external_deps.
      apply descending_map. cbn [ExternalDependency.import_count].
      apply sorted_desc_descending.
    + unfold build_highly_depended. apply descending_map.
      cbn [HighlyDepended.dependents_count].
      apply descending_firstn. apply sorted_desc_descending.
Qed.

(** X11: output bounds. A report holds at most 100 internal and 50
    external dependencies, 200 nodes, 500 edges, 10 chains, 20 entry
    points and 10 highly depended files. *)
Theorem report_lists_are_capped :
  forall (order : SetOrder) (h : Host) (inputs : ExecuteInputs),
  exists out,
    map_dependencies h inputs = Done out
    /\ List.length (MapOutputs.internal_dependencies out) <= 100
    /\ List.length (MapOutputs.external_dependencies out) <= 50
    /\ List.length (DependencyGraph.nodes (MapOutputs.dependency_graph out))
       <= 200
    /\ List.length (DependencyGraph.edges (MapOutputs.dependency_graph out))
       <= 500
    /\ List.length (MapOutputs.circular_dependencies out) <= 10
    /\ List.length (MapOutputs.entry_points out) <= 20
    /\ List.length (MapOutputs.highly_depended out) <= 10.
Proof.
  intros order h inputs.
  destruct (map_dependencies_cases h inputs)
    as [[_ H]|[[_ [_ H]]|[_ [_ [st [circular [_ [_ [_ [Hl [_ H]]]]]]]]]]];
    eexists; (split; [exact H|]).
  - simpl. repeat split; lia.
  - simpl. repeat split; lia.
  - unfold assemble, build_highly_depended.
    cbn [MapOutputs.internal_dependencies MapOutputs.external_dependencies
         MapOutputs.dependency_graph DependencyGraph.nodes
         DependencyGraph.edges MapOutputs.circular_dependencies
         MapOutputs.entry_points MapOutputs.highly_depended].
    rewrite length_map.
    repeat split; try apply firstn_le_length. exact Hl.
Qed.

Section HighlyDependedFacts.
Context {order : SetOrder}.

Lemma highly_depended_spec (e : Dict.t (list string)) (entry : HighlyDepended.t) :
  In entry (build_highly_depended e) ->
  In (HighlyDepended.path entry) (edge_targets e)
  /\ HighlyDepended.dependents_count entry
     = List.length (filter (Str.mem (HighlyDepended.path entry)) (Dict.values e)).
Proof.
  unfold build_highly_depended. intros H.
  apply in_map_iff in H. destruct H as [[t c] [<- H]].
  apply In_firstn_In in H.
  apply (Permutation_in _ (Permutation_sym (sorted_desc_perm snd _))) in H.
  cbn [HighlyDepended.path HighlyDepended.dependents_count fst snd].
  revert H.
  apply fold_left_inv with
    (P := fun d : Dict.t nat =>
            In (t, c) d ->
            In t (edge_targets e)
            /\ c = List.length (filter (Str.mem t) (Dict.values e)));
    [|intros []].
  intros d target Htarget IH Hin. apply alter_In in Hin.
  destruct Hin as [Hin|[-> [old [-> _]]]]; [now apply IH|].
  split; [exact (proj1 (set_iter_In _ _) Htarget) | reflexivity].
Qed.

Lemma highly_depended_paths (e : Dict.t (list string)) :
  NoDup (map HighlyDepended.path (build_highly_depended e)).
Proof.
  unfold build_highly_depended. rewrite map_map.
  cbn [HighlyDepended.path]. rewrite <- firstn_map. apply NoDup_firstn.
  apply (Permutation_NoDup (Permutation_map fst (sorted_desc_perm snd _))).
  apply fold_left_inv with (P := fun d : Dict.t nat => NoDup (map fst d));
    [|constructor].
  intros d target _ Hd.
  change (map fst (Dict.alter (fun _ : nat =>
            List.length (filter (Str.mem target) (Dict.values e))) 0 target d))
    with (Dict.keys (Dict.alter (fun _ : nat =>
            List.length (filter (Str.mem target) (Dict.values e))) 0 target d)).
  rewrite keys_alter. now apply set_add_NoDup.
Qed.
End HighlyDependedFacts.

(** X12: every highly depended file of a report is the target of an
    internal import, [dependents_count] is the number of scanned files that
    import it, which is at least one, no file is listed twice, and none of
    them is an entry point. *)
Theorem highly_depended_are_import_targets :
  forall (order : SetOrder) (h : Host) (inputs : ExecuteInputs),
  exists out st,
    map_dependencies h inputs = Done out
    /\ scan_files h inputs
         (get_source_files h (source_path inputs) (language inputs)) = Done st
    /\ NoDup (map HighlyDepended.path (MapOutputs.highly_depended out))
    /\ forall entry,
         In entry (MapOutputs.highly_depended out) ->
         1 <= HighlyDepended.dependents_count entry
         /\ HighlyDepended.dependents_count entry
            = List.length
                (filter (fun k => Str.mem (HighlyDepended.path entry)
                                          (neighbors (edges st) k))
                        (Dict.keys (edges st)))
         /\ (exists dep, In dep (internal_deps st)
                         /\ InternalDependency.target dep
                            = HighlyDepended.path entry)
         /\ ~ In (HighlyDepended.path entry) (MapOutputs.entry_points out).
Proof.
  intros order h inputs.
  destruct (scan_files_deps h inputs
              (get_source_files h (source_path inputs) (language inputs)))
    as [st [Es [_ [Hb [Hk _]]]]].
  destruct (report_cases h inputs)
    as [[s H]|[st' [circular [Es' [_ [_ [_ [_ [_ H]]]]]]]]];
    eexists; exists st; (split; [exact H|]); (split; [exact Es|]).
  - split; [constructor | intros entry []].
  - rewrite Es in Es'. injection Es' as <-.
    unfold assemble.
    cbn [MapOutputs.highly_depended MapOutputs.entry_points].
    split; [apply highly_depended_paths|].
    intros entry Hentry.
    destruct (highly_depended_spec _ _ Hentry) as [Ht Hc].
    destruct (edge_targets_spec (edges st)) as [_ Hspec].
    pose proof (proj1 (Hspec _) Ht) as [ts [Hts Hin]].
    assert (Hcount : List.length
                       (filter (Str.mem (HighlyDepended.path entry))
                               (Dict.values (edges st)))
                     = List.length
                         (filter (fun k => Str.mem (HighlyDepended.path entry)
                                                   (neighbors (edges st) k))
                                 (Dict.keys (edges st)))).
    { clear - Hk. unfold Dict.values, Dict.keys in *.
      assert (G : forall d : Dict.t (list string),
                 (forall k ts, In (k, ts) d -> neighbors (edges st) k = ts) ->
                 List.length
                   (filter (Str.mem (HighlyDepended.path entry)) (map snd d))
                 = List.length
                     (filter (fun k => Str.mem (HighlyDepended.path entry)
                                               (neighbors (edges st) k))
                             (map fst d))).
      { induction d as [|[k ts] d IH]; intros Hd; [reflexivity|].
        simpl. rewrite (Hd k ts (or_introl eq_refl)).
        destruct (Str.mem (HighlyDepended.path entry) ts); simpl;
          rewrite IH; auto; intros k' ts' H'; apply Hd; now right. }
      apply G. intros k ts Hin. unfold neighbors.
      now rewrite (@In_get _ (edges st) k ts Hk Hin). }
    split; [|split; [|split]].
    + rewrite Hc.
      assert (Hmem : In ts (filter (Str.mem (HighlyDepended.path entry))
                                   (Dict.values (edges st)))).
      { apply filter_In. split; [exact Hts | now apply mem_In]. }
      destruct (filter (Str.mem (HighlyDepended.path entry))
                       (Dict.values (edges st)));
        [destruct Hmem | simpl; lia].
    + now rewrite Hc.
    + unfold Dict.values in Hts. apply in_map_iff in Hts.
      destruct Hts as [[k ts'] [E Hkts]]. simpl in E. subst ts'.
      assert (Hn : In (HighlyDepended.path entry) (neighbors (edges st) k))
        by (eapply In_neighbors; eassumption).
      apply Hb in Hn. destruct Hn as [dep [Hdep [_ Htgt]]].
      now exists dep.
    + intros Hep. apply In_firstn_In in Hep.
      unfold find_entry_points in Hep. apply filter_In in Hep.
      destruct Hep as [_ Hep]. apply andb_true_iff in Hep.
      destruct Hep as [Hnot _]. apply negb_true_iff, mem_nIn in Hnot.
      contradiction.
Qed.

(** X13: a directory scanned with a language tag that is neither [auto]
    nor one of the five known languages yields no source file, whatever the
    directory holds: the report is the degenerate one that says so. *)
Theorem unknown_language_finds_no_source_file :
  forall (order : SetOrder) (h : Host) (inputs : ExecuteInputs),
    path_exists h (source_path inputs) = true ->
    path_is_file h (source_path inputs) = false ->
    ~ In (language inputs)
         ["auto"; "python"; "javascript"; "typescript"; "java"; "go"] ->
    get_source_files h (source_path inputs) (language inputs) = []
    /\ map_dependencies h inputs
       = Done (MapOutputs.with_summary
                 ("No source files found in: " ++ source_path inputs)%string).
Proof.
  intros order h inputs Hexists Hfile Hlang.
  assert (Hfiles : get_source_files h (source_path inputs) (language inputs)
                   = []).
  { unfold get_source_files. rewrite Hfile.
    destruct (path_is_dir h (source_path inputs)); [|reflexivity].
    cbn [negb].
    assert (E : forall tag,
               In tag ["auto"; "python"; "javascript"; "typescript";
                       "java"; "go"] ->
               (tag =? language inputs) = false
               /\ (language inputs =? tag) = false).
    { intros tag Htag. split; apply String.eqb_neq; intros E; subst;
        now apply Hlang. }
    destruct (E "auto") as [_ ->]; [simpl; tauto|].
    unfold EXTENSION_TO_LANGUAGE. cbn [filter snd].
    destruct (E "python") as [-> _]; [simpl; tauto|].
    destruct (E "javascript") as [-> _]; [simpl; tauto|].
    destruct (E "typescript") as [-> _]; [simpl; tauto|].
    destruct (E "java") as [-> _]; [simpl; tauto|].
    destruct (E "go") as [-> _]; [simpl; tauto|].
    reflexivity. }
  split; [exact Hfiles|].
  unfold map_dependencies. rewrite Hexists, Hfiles. reflexivity.
Qed.

Lemma unknown_language_finds_no_source_file_witness :
  @map_dependencies insertion_order (Memory.host "proj" Memory.two_files)
     {| source_path := "proj"; language := "rust"; depth := 3%Z;
        include_external := true; output_format := "summary" |}
  = Done (MapOutputs.with_summary "No source files found in: proj").
Proof.
  apply (@unknown_language_finds_no_source_file insertion_order
           (Memory.host "proj" Memory.two_files)
           {| source_path := "proj"; language := "rust"; depth := 3%Z;
              include_external := true; output_format := "summary" |});
    try reflexivity.
  simpl. intuition discriminate.
Defined.

Lemma string_append_assoc (a b c : string) :
  ((a ++ b) ++ c = a ++ (b ++ c))%string.
Proof. induction a as [|x a IH]; simpl; [reflexivity | now rewrite IH]. Qed.

Section QuietScans.
Variables (h : Host) (inputs : ExecuteInputs).

Lemma scan_files_nothing_recorded (files : list string) :
  (forall f imports module import_type symbols,
      In f files ->
      parse_file_imports h f (file_language h inputs f) = Done imports ->
      In (module, import_type, symbols) imports ->
      module = EmptyString
      \/ (is_external_dependency module (file_language h inputs f) f = true
          /\ include_external inputs = false)) ->
  returns (fun st => internal_deps st = [] /\ external_deps_map st = []
                     /\ edges st = [] /\ external_nodes st = [])
          (scan_files h inputs files).
Proof.
  intros Hquiet.
  apply (@scan_files_ind h inputs
           (fun _ st => internal_deps st = [] /\ external_deps_map st = []
                        /\ edges st = [] /\ external_nodes st = [])).
  - repeat split.
  - intros done f acc _ H. exact H.
  - intros done f acc imports [[module import_type] symbols] Hf Hparse Himp Hacc.
    destruct (Hquiet f imports module import_type symbols Hf Hparse Himp)
      as [Hm|[Hext Hoff]];
      destruct (record_import_cases (include_external inputs)
                  (file_language h inputs f) f (relative_path_of h inputs f)
                  acc module import_type symbols)
        as [[-> _]|[[Hne [_ [Hon _]]]|[Hne [Hint _]]]];
      try exact Hacc; try contradiction; congruence.
Qed.
End QuietScans.

(** X14: when the scan finds files and none of their imports is recorded
    (each has an empty module name, or is classified external while
    external dependencies are excluded), the report counts zero
    dependencies: every dependency list, the edges, the chains, the entry
    points and the highly depended files are empty, every node is
    internal, and the summary states the number of files and zero internal
    and zero external dependencies. *)
Theorem scan_without_recorded_imports_reports_zero :
  forall (order : SetOrder) (h : Host) (inputs : ExecuteInputs),
    path_exists h (source_path inputs) = true ->
    get_source_files h (source_path inputs) (language inputs) <> [] ->
    (forall f imports module import_type symbols,
        In f (get_source_files h (source_path inputs) (language inputs)) ->
        parse_file_imports h f (file_language h inputs f) = Done imports ->
        In (module, import_type, symbols) imports ->
        module = EmptyString
        \/ (is_external_dependency module (file_language h inputs f) f = true
            /\ include_external inputs = false)) ->
    exists out,
      map_dependencies h inputs = Done out
      /\ MapOutputs.summary out
         = ("Analyzed "
              ++ Str.of_nat
                   (List.length
                      (get_source_files h (source_path inputs)
                                        (language inputs)))
              ++ " file(s). Found 0 internal and 0 external dependencies."
           )%string
      /\ MapOutputs.total_dependencies out = 0
      /\ MapOutputs.internal_dependencies out = []
      /\ MapOutputs.external_dependencies out = []
      /\ DependencyGraph.edges (MapOutputs.dependency_graph out) = []
      /\ MapOutputs.circular_dependencies out = []
      /\ MapOutputs.entry_points out = []
      /\ MapOutputs.highly_depended out = []
      /\ forall node,
           In node (DependencyGraph.nodes (MapOutputs.dependency_graph out)) ->
           GraphNode.type node = "internal".
Proof.
  intros order h inputs Hexists Hfiles Hquiet.
  destruct (scan_files_nothing_recorded h inputs _ Hquiet)
    as [st [Es [Hi [Hx [He Hn]]]]].
  destruct (map_dependencies_cases h inputs)
    as [[Hno _]|[[_ [Hnone _]]|[_ [_ [st' [circular [Es' [_ [Ec [_ [_ H]]]]]]]]]]];
    [congruence | contradiction |].
  - rewrite Es in Es'. injection Es' as <-.
    rewrite He in Ec. vm_compute in Ec. injection Ec as <-.
    eexists. split; [exact H|].
    unfold assemble, build_summary, build_highly_depended, find_entry_points,
      build_external_deps, build_graph_edges, build_graph_nodes.
    rewrite Hi, Hx, He, Hn.
    cbn [MapOutputs.summary MapOutputs.total_dependencies
         MapOutputs.internal_dependencies MapOutputs.external_dependencies
         MapOutputs.dependency_graph DependencyGraph.nodes
         DependencyGraph.edges MapOutputs.circular_dependencies
         MapOutputs.entry_points MapOutputs.highly_depended].
    assert (Ht : edge_targets [] = []) by reflexivity.
    rewrite Ht, !set_iter_nil.
    split.
    { cbn [Str.join List.length app Str.of_nat].
      rewrite !string_append_assoc. reflexivity. }
    split; [reflexivity|]. split; [reflexivity|].
    split; [reflexivity|]. split; [reflexivity|]. split; [reflexivity|].
    split; [|split; [reflexivity|]].
    + rewrite filter_none; [reflexivity|]. intros x _.
      apply andb_false_iff. now right.
    + intros node Hnode. apply In_firstn_In in Hnode.
      rewrite app_nil_r in Hnode. apply in_map_iff in Hnode.
      destruct Hnode as [a [<- _]]. reflexivity.
Qed.

Lemma scan_without_recorded_imports_reports_zero_witness :
  exists out,
    @map_dependencies insertion_order
       (Memory.host "proj" Memory.broken_python) (Memory.inputs "proj" false)
    = Done out
    /\ MapOutputs.summary out
       = "Analyzed 1 file(s). Found 0 internal and 0 external dependencies."
    /\ MapOutputs.total_dependencies out = 0.
Proof.
  destruct (@scan_without_recorded_imports_reports_zero insertion_order
              (Memory.host "proj" Memory.broken_python)
              (Memory.inputs "proj" false))
    as [out [E [Hs [Ht _]]]].
  - reflexivity.
  - discriminate.
  - intros f imports module import_type symbols Hf Hparse Himp.
    vm_compute in Hf. destruct Hf as [<-|[]].
    vm_compute in Hparse. injection Hparse as <-.
    destruct Himp as [[= <- _ _]|[]].
    right. split; reflexivity.
  - exists out. split; [exact E | split; [exact Hs | exact Ht]].
Defined.

(** * Further properties of the extractors and the classifier *)

(** X15: language detection answers one of the six tags, and answers
    [unknown] exactly when the lower-cased suffix of the path is none of the
    nine known extensions. *)
Theorem detect_language_is_a_known_tag :
  forall (h : Host) (file_path : string),
    In (detect_language h file_path)
       ["python"; "javascript"; "typescript"; "java"; "go"; "unknown"]
    /\ (detect_language h file_path = "unknown" <->
        ~ In (Str.lower (path_suffix h file_path))
             (Dict.keys EXTENSION_TO_LANGUAGE)).
Proof.
  intros h file_path. unfold detect_language.
  destruct (Dict.get EXTENSION_TO_LANGUAGE (Str.lower (path_suffix h file_path)))
    as [lang|] eqn:E.
  - pose proof (get_In _ _ E) as Hin.
    assert (Hkey : In (Str.lower (path_suffix h file_path))
                      (Dict.keys EXTENSION_TO_LANGUAGE)).
    { unfold Dict.keys. apply in_map_iff.
      now exists (Str.lower (path_suffix h file_path), lang). }
    simpl in Hin.
    repeat (destruct Hin as [Hin|Hin];
            [injection Hin as _ <-;
             (split; [simpl; tauto | split; [discriminate | contradiction]])|]).
    destruct Hin.
  - split; [simpl; tauto|]. split; [|reflexivity]. intros _ Hin.
    unfold Dict.keys in Hin. apply in_map_iff in Hin.
    destruct Hin as [[k v] [Hk Hin]]. simpl in Hk. subst k.
    rewrite (@In_get _ EXTENSION_TO_LANGUAGE _ v) in E; [discriminate | | exact Hin].
    unfold Dict.keys. simpl.
    repeat constructor; simpl; intuition discriminate.
Qed.

Lemma ast_nested_ind (P : ast -> Prop) :
  (forall names, P (Import names)) ->
  (forall module names level, P (ImportFrom module names level)) ->
  (forall children, Forall P children -> P (Node children)) ->
  forall node, P node.
Proof.
  intros H1 H2 H3. fix IH 1.
  intros [names|module names level|children];
    [apply H1 | apply H2 | apply H3].
  induction children as [|c cs IHcs]; constructor; [apply IH | exact IHcs].
Qed.

Lemma visit_children (children : list ast) :
  Forall (fun c => forall acc, visit c acc = acc ++ visit c []) children ->
  forall acc,
    fold_left (fun acc child => visit child acc) children acc
    = acc ++ List.concat (map (fun child => visit child []) children).
Proof.
  induction 1 as [|c cs Hc _ IH]; intros acc; simpl.
  - now rewrite app_nil_r.
  - rewrite IH, Hc. now rewrite app_assoc.
Qed.

Lemma visit_app (node : ast) :
  forall imports, visit node imports = imports ++ visit node [].
Proof.
  induction node as [names|module names level|children IH]
    using ast_nested_ind; intros imports.
  - reflexivity.
  - reflexivity.
  - simpl. rewrite !(visit_children IH). reflexivity.
Qed.

(** X16: the visitor appends: visiting a node leaves the records already
    collected in place and adds the records of the node after them, and the
    records of a node are those of its children, one child after the other
    in visiting order. *)
Theorem visit_appends_in_order :
  forall (node : ast) (imports : list ImportRecord),
    visit node imports = imports ++ visit node []
    /\ forall children,
         visit (Node children) imports
         = imports ++ List.concat (map (fun child => visit child []) children).
Proof.
  intros node imports. split; [apply visit_app|].
  intros children. simpl. apply visit_children.
  apply Forall_forall. intros c _. apply visit_app.
Qed.

Lemma split_no_separator (c : ascii) (s : string) :
  Str.split c s <> []
  /\ Forall (fun p => Str.contains c p = false) (Str.split c s).
Proof.
  induction s as [|d rest [IHne IH]]; simpl.
  - split; [discriminate | repeat constructor].
  - destruct (Ascii.eqb d c) eqn:E.
    + split; [discriminate | constructor; [reflexivity | exact IH]].
    + destruct (Str.split c rest) as [|p ps]; [now contradiction IHne|].
      split; [discriminate|]. inversion IH as [|? ? Hp Hps]; subst.
      constructor; [|exact Hps]. simpl. now rewrite E, Hp.
Qed.

Lemma lstrip_contains (c : ascii) (s : string) :
  Str.contains c s = false -> Str.contains c (Str.lstrip s) = false.
Proof.
  induction s as [|d rest IH]; simpl; [reflexivity|].
  intros H. apply orb_false_iff in H. destruct H as [Hd Hrest].
  destruct (Str.is_space d); [now apply IH|].
  simpl. now rewrite Hd, Hrest.
Qed.

Lemma rstrip_contains (c : ascii) (s : string) :
  Str.contains c s = false -> Str.contains c (Str.rstrip s) = false.
Proof.
  induction s as [|d rest IH]; simpl; [reflexivity|].
  intros H. apply orb_false_iff in H. destruct H as [Hd Hrest].
  specialize (IH Hrest).
  destruct (Str.rstrip rest) as [|x r].
  - destruct (Str.is_space d); [reflexivity|]. simpl. now rewrite Hd.
  - change (Str.contains c (String d (String x r)))
      with (Ascii.eqb d c || Str.contains c (String x r)).
    now rewrite Hd, IH.
Qed.

Lemma strip_contains (c : ascii) (s : string) :
  Str.contains c s = false -> Str.contains c (Str.strip s) = false.
Proof.
  intros H. unfold Str.strip. now apply rstrip_contains, lstrip_contains.
Qed.

Lemma first_field_no_separator (c : ascii) (s : string) :
  Str.contains c (Str.first_field c s) = false.
Proof.
  unfold Str.first_field. destruct (split_no_separator c s) as [Hne H].
  destruct (Str.split c s) as [|p ps]; [now contradiction Hne|].
  now inversion H.
Qed.

(** X17: the records of the regex strategy. A record is either a direct
    import with one symbol, which is not empty and holds no comma, under
    the module name that is its text before the first dot (so the module
    name holds no dot); or a from-import, with at least one symbol and no
    comma in any symbol. The direct records come first. *)
Theorem regex_records_are_well_formed :
  forall (h : Host) (code : string),
  exists direct from,
    parse_python_imports_regex h code = direct ++ from
    /\ (forall r, In r direct ->
          exists s,
            r = (Str.first_field "." s, "direct", [s])
            /\ s <> EmptyString
            /\ Str.contains "," s = false
            /\ Str.contains "." (Str.first_field "." s) = false)
    /\ (forall r, In r from ->
          exists module symbols,
            r = (module, "from", symbols)
            /\ symbols <> []
            /\ Forall (fun s => Str.contains "," s = false) symbols).
Proof.
  intros h code. unfold parse_python_imports_regex.
  eexists. eexists. split; [reflexivity|]. split.
  - intros r Hr. apply in_flat_map in Hr. destruct Hr as [m [_ Hr]].
    apply in_flat_map in Hr. destruct Hr as [s [Hs Hr]].
    destruct (String.eqb_spec s EmptyString) as [->|Hne]; [destruct Hr|].
    destruct Hr as [<-|[]]. exists s.
    split; [reflexivity | split; [exact Hne | split]].
    + apply in_map_iff in Hs. destruct Hs as [p [<- Hp]].
      apply strip_contains.
      destruct (split_no_separator "," (group1 m)) as [_ H].
      rewrite Forall_forall in H. now apply H.
    + apply first_field_no_separator.
  - intros r Hr. apply in_map_iff in Hr. destruct Hr as [m [<- _]].
    eexists. eexists. split; [reflexivity|].
    destruct (split_no_separator "," (group2 m)) as [Hne H]. split.
    + destruct (Str.split "," (group2 m)); [now contradiction Hne | discriminate].
    + apply Forall_map. eapply Forall_impl; [|exact H].
      intros p Hp. now apply strip_contains.
Qed.

(** X18: for JavaScript and TypeScript the classifier answers internal
    exactly for the targets that begin with a dot or a slash; the table of
    built-in modules and the [node:] prefix change nothing. *)
Theorem js_target_classification :
  forall (module source_file : string),
    is_external_dependency module "javascript" source_file
    = negb (Str.startswith module "." || Str.startswith module "/")
    /\ is_external_dependency module "typescript" source_file
       = negb (Str.startswith module "." || Str.startswith module "/").
Proof.
  intros module source_file. unfold is_external_dependency.
  destruct (Str.startswith module ".") eqn:Edot; [split; reflexivity|].
  cbn [String.eqb Ascii.eqb Bool.eqb orb negb].
  destruct (Str.startswith module "/"); [split; reflexivity|].
  destruct (Str.mem module JAVASCRIPT_BUILTIN || Str.startswith module "node:");
    split; reflexivity.
Qed.

(** X19: a source path that is a file is scanned as the one source file,
    whatever the language tag of the request: the language filter and the
    extension table apply to directories only. *)
Theorem single_file_is_always_scanned :
  forall (order : SetOrder) (h : Host) (inputs : ExecuteInputs),
    path_exists h (source_path inputs) = true ->
    path_is_file h (source_path inputs) = true ->
    get_source_files h (source_path inputs) (language inputs)
    = [path_str h (source_path inputs)]
    /\ relative_path_of h inputs (path_str h (source_path inputs))
       = path_relative_to h (path_str h (source_path inputs))
                          (path_parent h (source_path inputs))
    /\ exists out,
         map_dependencies h inputs = Done out
         /\ String.prefix "Analyzed 1 file(s)." (MapOutputs.summary out)
            = true.
Proof.
  intros order h inputs Hexists Hfile.
  assert (Hfiles : get_source_files h (source_path inputs) (language inputs)
                   = [path_str h (source_path inputs)])
    by (unfold get_source_files; now rewrite Hfile).
  split; [exact Hfiles|].
  split; [unfold relative_path_of; now rewrite Hfile|].
  destruct (map_dependencies_cases h inputs)
    as [[Hno _]|[[_ [Hnone _]]|[_ [_ [st [circular [_ [_ [_ [_ [_ H]]]]]]]]]]];
    [congruence | congruence |].
  eexists. split; [exact H|]. rewrite Hfiles.
  unfold assemble, build_summary. cbn [MapOutputs.summary].
  reflexivity.
Qed.

Lemma single_file_is_always_scanned_witness :
  get_source_files (file_host "notes" "todo" "see README" SyntaxError
                              (fun _ => []))
                   "notes/todo" "go"
  = ["notes/todo"]
  /\ exists out,
       @map_dependencies insertion_order
          (file_host "notes" "todo" "see README" SyntaxError (fun _ => []))
          {| source_path := "notes/todo"; language := "go"; depth := 3%Z;
             include_external := true; output_format := "summary" |}
       = Done out
       /\ String.prefix "Analyzed 1 file(s)." (MapOutputs.summary out) = true.
Proof.
  destruct (@single_file_is_always_scanned insertion_order
              (file_host "notes" "todo" "see README" SyntaxError (fun _ => []))
              {| source_path := "notes/todo"; language := "go"; depth := 3%Z;
                 include_external := true; output_format := "summary" |}
              eq_refl eq_refl) as [Hfiles [_ Hout]].
  split; [exact Hfiles | exact Hout].
Defined.

(** ** Counting what the scan records *)

Lemma list_sum_single (n : nat) : list_sum [n] = n.
Proof. unfold list_sum. simpl. apply Nat.add_0_r. Qed.

Section Counting.
Variables (h : Host) (inputs : ExecuteInputs).

Lemma scan_files_by_file (P : list string -> scan_state -> Prop)
      (files : list string) :
  P [] initial_scan_state ->
  (forall done f acc imports,
      In f files ->
      parse_file_imports h f (file_language h inputs f) = Done imports ->
      P done acc ->
      P (done ++ [f])
        (fold_left
           (record_import (include_external inputs) (file_language h inputs f)
                          f (relative_path_of h inputs f))
           imports
           (with_file_node (relative_path_of h inputs f) acc))) ->
  returns (P files) (scan_files h inputs files).
Proof.
  intros Hinit Hfile. unfold scan_files.
  change files with ([] ++ files) at 1.
  apply (@loop_returns_from _ _
           (fun file_path st => scan_file h inputs st file_path) P).
  - intros d f acc Hacc Hf. unfold scan_file.
    destruct (parse_file_imports_returns h f (file_language h inputs f))
      as [imports E].
    rewrite E. cbn [bind]. eexists. split; [reflexivity|].
    now apply Hfile.
  - exact Hinit.
Qed.

Lemma record_imports_count (f : string) (imports : list ImportRecord) :
  forall acc,
    let st := fold_left
                (record_import (include_external inputs)
                               (file_language h inputs f) f
                               (relative_path_of h inputs f))
                imports acc in
    List.length (internal_deps st)
    = List.length (internal_deps acc)
      + List.length
          (filter (fun imp =>
                     negb (is_external_dependency (fst (fst imp))
                             (file_language h inputs f) f))
                  (filter (fun imp => negb (fst (fst imp) =? EmptyString))
                          imports))
    /\ Dict.keys (external_deps_map st)
       = if include_external inputs
         then fold_left (fun s x => set_add x s)
                (map (fun imp =>
                        Str.first_field "." (Str.first_field "/" (fst (fst imp))))
                     (filter (fun imp =>
                                is_external_dependency (fst (fst imp))
                                  (file_language h inputs f) f)
                             (filter (fun imp =>
                                        negb (fst (fst imp) =? EmptyString))
                                     imports)))
                (Dict.keys (external_deps_map acc))
         else Dict.keys (external_deps_map acc).
Proof.
  induction imports as [|[[module import_type] symbols] imports IH];
    intros acc; cbn zeta.
  - simpl. split; [lia | now destruct (include_external inputs)].
  - cbn [fold_left].
    specialize (IH (record_import (include_external inputs)
                      (file_language h inputs f) f
                      (relative_path_of h inputs f) acc
                      (module, import_type, symbols))).
    cbn zeta in IH. destruct IH as [IH1 IH2]. rewrite IH1, IH2.
    cbn [filter fst].
    destruct (record_import_cases (include_external inputs)
                (file_language h inputs f) f (relative_path_of h inputs f)
                acc module import_type symbols)
      as [[-> [->|[Hext Hoff]]]|[[Hne [Hext [Hon ->]]]|[Hne [Hint ->]]]].
    + cbn. split; reflexivity.
    + rewrite Hoff.
      destruct (String.eqb_spec module EmptyString) as [->|Hne]; cbn [negb filter fst].
      * split; reflexivity.
      * rewrite Hext. cbn [negb]. split; reflexivity.
    + apply String.eqb_neq in Hne. rewrite Hne, Hon. cbn [negb filter fst].
      rewrite Hext. cbn [negb map fold_left fst].
      unfold with_external_import. cbn [internal_deps external_deps_map].
      rewrite keys_alter. split; reflexivity.
    + apply String.eqb_neq in Hne. rewrite Hne. cbn [negb filter fst].
      rewrite Hint. cbn [negb].
      unfold with_internal_import. cbn [internal_deps external_deps_map].
      rewrite length_app. cbn [List.length].
      split; [now rewrite <- Nat.add_assoc | reflexivity].
Qed.

Lemma scan_files_counts (files : list string) :
  returns
    (fun st =>
       List.length (internal_deps st)
       = list_sum (map (fun f => List.length (internal_imports h inputs f))
                       files)
       /\ Dict.keys (external_deps_map st)
          = if include_external inputs
            then set_of_list (flat_map (external_roots h inputs) files)
            else [])
    (scan_files h inputs files).
Proof.
  apply (@scan_files_by_file
           (fun done st =>
              List.length (internal_deps st)
              = list_sum (map (fun f => List.length (internal_imports h inputs f))
                              done)
              /\ Dict.keys (external_deps_map st)
                 = if include_external inputs
                   then set_of_list (flat_map (external_roots h inputs) done)
                   else [])).
  - split; [reflexivity | now destruct (include_external inputs)].
  - intros done f acc imports _ Hparse [H1 H2].
    destruct (record_imports_count f imports
                (with_file_node (relative_path_of h inputs f) acc))
      as [C1 C2].
    cbn zeta in C1, C2. rewrite C1, C2.
    unfold with_file_node. cbn [internal_deps external_deps_map].
    rewrite H1, H2. rewrite map_app, list_sum_app, flat_map_app.
    cbn [map list_sum flat_map]. rewrite app_nil_r.
    assert (Ei : internal_imports h inputs f
                 = filter (fun imp =>
                             negb (is_external_dependency (fst (fst imp))
                                     (file_language h inputs f) f))
                          (filter (fun imp => negb (fst (fst imp) =? EmptyString))
                                  imports))
      by (unfold internal_imports, named_imports; now rewrite Hparse).
    assert (Ee : external_roots h inputs f
                 = map (fun imp =>
                          Str.first_field "." (Str.first_field "/" (fst (fst imp))))
                       (filter (fun imp =>
                                  is_external_dependency (fst (fst imp))
                                    (file_language h inputs f) f)
                               (filter (fun imp =>
                                          negb (fst (fst imp) =? EmptyString))
                                       imports)))
      by (unfold external_roots, named_imports; now rewrite Hparse).
    rewrite Ei, Ee.
    split; [now rewrite list_sum_single|].
    destruct (include_external inputs); [|reflexivity].
    unfold set_of_list. now rewrite fold_left_app.
Qed.
End Counting.

(** X20: when the source path exists, [total_dependencies] is the number
    of named imports the classifier answers internal for, summed over the
    source files, plus, when external dependencies are included, the number
    of distinct root names of the named imports it answers external for. *)
Theorem total_dependencies_counts_imports :
  forall (order : SetOrder) (h : Host) (inputs : ExecuteInputs),
    path_exists h (source_path inputs) = true ->
    exists out,
      map_dependencies h inputs = Done out
      /\ MapOutputs.total_dependencies out
         = list_sum
             (map (fun f => List.length (internal_imports h inputs f))
                  (get_source_files h (source_path inputs) (language inputs)))
           + (if include_external inputs
              then List.length
                     (set_of_list
                        (flat_map (external_roots h inputs)
                           (get_source_files h (source_path inputs)
                                             (language inputs))))
              else 0).
Proof.
  intros order h inputs Hexists.
  destruct (scan_files_counts h inputs
              (get_source_files h (source_path inputs) (language inputs)))
    as [st [Es [H1 H2]]].
  destruct (map_dependencies_cases h inputs)
    as [[Hno _]|[[_ [Hnone H]]|[_ [_ [st' [circular [Es' [_ [_ [_ [_ H]]]]]]]]]]];
    [congruence | |]; eexists; (split; [exact H|]).
  - rewrite Hnone. simpl. now destruct (include_external inputs).
  - rewrite Es in Es'. injection Es' as <-.
    unfold assemble. cbn [MapOutputs.total_dependencies].
    unfold build_external_deps. rewrite length_map.
    rewrite <- (Permutation_length (sorted_desc_perm _ _)).
    rewrite H1. f_equal.
    change (List.length (external_deps_map st))
      with (List.length (external_deps_map st)).
    rewrite <- (length_map fst (external_deps_map st)).
    change (map fst (external_deps_map st))
      with (Dict.keys (external_deps_map st)).
    rewrite H2. now destruct (include_external inputs).
Qed.

Lemma total_dependencies_counts_imports_witness :
  exists out,
    @map_dependencies insertion_order (Memory.host "proj" Memory.two_files)
                      (Memory.inputs "proj" true) = Done out
    /\ MapOutputs.total_dependencies out = 2.
Proof.
  destruct (@total_dependencies_counts_imports insertion_order
              (Memory.host "proj" Memory.two_files)
              (Memory.inputs "proj" true) eq_refl)
    as [out [E Ht]].
  exists out. split; [exact E|]. rewrite Ht. reflexivity.
Defined.

Lemma last_field_suffix (c : ascii) (s : string) :
  exists pre,
    s = (pre ++ Str.last_field c s)%string
    /\ (List.length (Str.split c s) = 1 -> pre = EmptyString).
Proof.
  unfold Str.last_field. induction s as [|d rest [pre [IH1 IH2]]].
  - exists EmptyString. split; [reflexivity | reflexivity].
  - destruct (split_no_separator c rest) as [Hne _]. simpl.
    destruct (Ascii.eqb d c).
    + exists (String d pre). split.
      * destruct (Str.split c rest) as [|p ps]; [now contradiction Hne|].
        simpl. f_equal. exact IH1.
      * simpl. destruct (Str.split c rest); [now contradiction Hne|].
        discriminate.
    + destruct (Str.split c rest) as [|p ps] eqn:E; [now contradiction Hne|].
      destruct ps as [|q qs].
      * exists EmptyString. split; [|reflexivity].
        simpl in *. rewrite (IH2 eq_refl) in IH1. simpl in IH1.
        now rewrite <- IH1.
      * exists (String d pre). split; [|discriminate].
        simpl. f_equal. exact IH1.
Qed.

Lemma last_field_no_separator (c : ascii) (s : string) :
  Str.contains c (Str.last_field c s) = false.
Proof.
  unfold Str.last_field. destruct (split_no_separator c s) as [Hne H].
  rewrite Forall_forall in H. apply H.
  destruct (Str.split c s) as [|p ps]; [now contradiction Hne|].
  apply (@exists_last _ (p :: ps)) in Hne.
  destruct Hne as [l' [a E]]. rewrite E, last_last.
  apply in_or_app. right. now left.
Qed.

(** X21: every record of the Java extractor has the type [static] or
    [direct] and exactly one symbol; the symbol holds no dot and the module
    name ends with it. *)
Theorem java_records_name_the_last_segment :
  forall (h : Host) (code : string) (r : ImportRecord),
    In r (parse_java_imports h code) ->
    exists module kind symbol pre,
      r = (module, kind, [symbol])
      /\ (kind = "static" \/ kind = "direct")
      /\ Str.contains "." symbol = false
      /\ module = (pre ++ symbol)%string.
Proof.
  intros h code r Hr. unfold parse_java_imports in Hr.
  apply in_map_iff in Hr. destruct Hr as [m [<- _]].
  destruct (last_field_suffix "." (group1 m)) as [pre [Hpre _]].
  exists (group1 m),
    (if Str.contains_str "static" (group0 m) then "static" else "direct"),
    (Str.last_field "." (group1 m)), pre.
  split; [reflexivity|]. split; [|split].
  - destruct (Str.contains_str "static" (group0 m)); [now left | now right].
  - apply last_field_no_separator.
  - exact Hpre.
Qed.

Lemma java_records_name_the_last_segment_witness :
  exists module kind symbol pre,
    ("java.util.List", "direct", ["List"]) = (module, kind, [symbol])
    /\ (kind = "static" \/ kind = "direct")
    /\ Str.contains "." symbol = false
    /\ module = (pre ++ symbol)%string.
Proof.
  apply (@java_records_name_the_last_segment
           (file_host "src" "A.java" "import java.util.List;" SyntaxError
              (fun pat =>
                 match pat with
                 | JAVA_IMPORT =>
                     [ {| group0 := "import java.util.List;";
                          group1 := "java.util.List";
                          group2 := EmptyString |} ]
                 | _ => []
                 end))
           "import java.util.List;").
  simpl. now left.
Defined.

(* ====================================================================== *)
(** * Two files that import each other *)
(* ====================================================================== *)

(** ** The search of a map with two keys that import each other *)



Section TwoKeys.
Context {order : SetOrder}.
Variables (e : Dict.t (list string)) (pa pb : string).
Hypothesis Hne : pa <> pb.
Hypothesis Hkeys : Dict.keys e = [pa; pb].
Hypothesis Hab : In pb (neighbors e pa).
Hypothesis Hba : In pa (neighbors e pb).






End TwoKeys.

(** ** The edges a scan builds, file by file *)



Section EdgesByFile.
Variables (h : Host) (inputs : ExecuteInputs).


End EdgesByFile.

(** ** Two files *)


Section TwoNodeGraph.
Context {order : SetOrder}.
Variables (e : Dict.t (list string)) (pa pb : string).
Hypothesis Hne : pa <> pb.
Hypothesis Hdom : forall k t, In t (neighbors e k) -> k = pa \/ k = pb.
Hypothesis Hfirst :
  In pb (neighbors e pa) -> In pa (neighbors e pb) -> Dict.keys e = [pa; pb].





End TwoNodeGraph.




